(** * NNTP client: response-body decoding layer

    A shallow embedding of the body readers of the [nntp] Go package:

    - [yenc_reader.go]: the yEnc decoder ([yencReader], [nextLine],
      [decode], [Close]);
    - [zlib_dot_reader.go]: the compressed body reader
      ([zlibDotResponse], [Close], [readDot]).

    Bytes are integers with the 8-bit wrap-around written out, a
    [*bufio.Reader] is the list of bytes it will still deliver (followed by
    [io.EOF]), a Go method with a pointer receiver is a function from the
    receiver's state to the new state and the returned values, and the Go
    [error] interface is an inductive type with [None] for [nil]. *)

From Stdlib Require Import ZArith Lia Ascii.
From stdpp Require Import base option list strings gmap.

Local Open Scope Z_scope.

(** ** Errors *)

(** The values of Go's [error] interface that the embedded code produces. *)
Inductive error : Type :=
  | EOF                                   (* io.EOF *)
  | ErrExpectedYbegin (line : list Z)     (* fmt.Errorf("expected =ybegin, got %q", line) *)
  | ErrZlib (msg : string)                (* an error of compress/zlib or compress/flate *)
  | ProtocolError (msg : string).         (* ProtocolError(msg) *)

(** ** Unsigned 8-bit arithmetic *)

Module Uint8.

(** Go's [uint8]: the result of every operation is reduced modulo 256. *)
Definition is_byte (x : Z) : Prop := 0 <= x < 256.

Definition sub (a b : Z) : Z := (a - b) mod 256.
Definition add (a b : Z) : Z := (a + b) mod 256.
Definition and (a b : Z) : Z := Z.land a b.

End Uint8.

(** ** bufio.Reader over bytes *)

Module Bufio.

(** [r.ReadBytes(delim)]: the bytes up to and including the first
    [delim]; when the input ends before a [delim], the bytes read so far
    and [io.EOF].  The result is (data, remaining input, error). *)
Fixpoint ReadBytes (delim : Z) (r : list Z) : list Z * list Z * option error :=
  match r with
  | [] => ([], [], Some EOF)
  | c :: r' =>
      if c =? delim then ([c], r', None)
      else let '(data, rest, err) := ReadBytes delim r' in (c :: data, rest, err)
  end.

(** [bytes.TrimRight(s, cutset)]: [s] without its trailing bytes that
    are in [cutset]. *)
Fixpoint TrimRight (s : list Z) (cutset : list Z) : list Z :=
  match s with
  | [] => []
  | c :: s' =>
      match TrimRight s' cutset with
      | [] => if bool_decide (c ∈ cutset) then [] else [c]
      | t => c :: t
      end
  end.

(** [[]byte(s)]: the bytes of a string constant. *)
Definition bytes (s : string) : list Z :=
  (λ a, Z.of_nat (Ascii.nat_of_ascii a)) <$> String.list_ascii_of_string s.

(** [len(s) >= len(p) && string(s[:len(p)]) == p] *)
Definition HasPrefix (s p : list Z) : bool :=
  (Z.of_nat (length p) <=? Z.of_nat (length s)) && bool_decide (take (length p) s = p).

End Bufio.

(** ** yenc_reader.go *)

Module Yenc.

Definition CR : Z := 13.
Definition LF : Z := 10.
(** ['='] *)
Definition ESC : Z := 61.
(** ["=ybegin"] and ["=yend"] *)
Definition ybegin : list Z := Eval cbv in Bufio.bytes "=ybegin".
Definition yend : list Z := Eval cbv in Bufio.bytes "=yend".

Record yencReader : Type := mkYenc {
  r : list Z;
  readHeader : bool;
  awaitingSpecial : bool;
  eof : bool;
  buf : list Z
}.

(** *** [decode]: the in-place loop *)

(** [line[i]]; [None] is the run-time panic of an index out of range. *)
Definition index (line : list Z) (i : Z) : option Z :=
  if i <? 0 then None else line !! Z.to_nat i.

(** [line[j] = v] *)
Definition store (line : list Z) (j : Z) (v : Z) : option (list Z) :=
  if (j <? 0) || (Z.of_nat (length line) <=? j) then None
  else Some (<[Z.to_nat j := v]> line).

(** The variables of the loop: the buffer, the read index [i], the write
    index [j] and the receiver's [awaitingSpecial]. *)
Record decode_state : Type := mkDec {
  d_line : list Z;
  d_i : Z;
  d_j : Z;
  d_special : bool
}.

(** One iteration: the body, then the post statement
    [i, j = i+1, j+1] (which [continue] runs too). *)
Definition decode_iter (s : decode_state) : option decode_state :=
  c ← index (d_line s) (d_i s);
  if d_special s then
    line' ← store (d_line s) (d_j s)
              (Uint8.and (Uint8.sub (Uint8.and (Uint8.sub c 42) 255) 64) 255);
    Some (mkDec line' (d_i s + 1) (d_j s + 1) false)
  else if c =? ESC then
    Some (mkDec (d_line s) (d_i s + 1) (d_j s - 1 + 1) true)
  else
    line' ← store (d_line s) (d_j s) (Uint8.and (Uint8.sub c 42) 255);
    Some (mkDec line' (d_i s + 1) (d_j s + 1) false).

(** [for ; i < len(line); ...]: at most [fuel] iterations. *)
Fixpoint decode_loop (fuel : nat) (s : decode_state) : option decode_state :=
  if d_i s <? Z.of_nat (length (d_line s)) then
    match fuel with
    | O => Some s
    | S fuel' => s' ← decode_iter s; decode_loop fuel' s'
    end
  else Some s.

(** [y.decode(line)]: the returned slice [line[:len(line)-(i-j)]] and the
    new [awaitingSpecial]; [None] if an index is out of range.  The loop
    runs at most [len(line)] times. *)
Definition decode (special : bool) (line : list Z) : option (list Z * bool) :=
  s ← decode_loop (length line) (mkDec line 0 0 special);
  Some (take (Z.to_nat (Z.of_nat (length (d_line s)) - (d_i s - d_j s))) (d_line s),
        d_special s).

(** The loop has stopped: its condition is false. *)
Definition decode_exited (s : decode_state) : Prop :=
  Z.of_nat (length (d_line s)) <= d_i s.

(** *** [nextLine], [Read] and [Close] *)

(** [None] is a run-time panic. *)
Definition nextLine (y : yencReader) : option (yencReader * option error) :=
  if eof y then Some (y, Some EOF)
  else
    let '(line, rest, err) := Bufio.ReadBytes LF (r y) in
    let y := mkYenc rest (readHeader y) (awaitingSpecial y) (eof y) (buf y) in
    match err with
    | Some e => Some (y, Some e)
    | None =>
        let line := Bufio.TrimRight line [CR; LF] in
        if negb (readHeader y) then
          if Bufio.HasPrefix line ybegin then
            Some (mkYenc (r y) true (awaitingSpecial y) (eof y) (buf y), None)
          else Some (y, Some (ErrExpectedYbegin line))
        else if Bufio.HasPrefix line yend then
          Some (mkYenc (r y) (readHeader y) (awaitingSpecial y) true (buf y), Some EOF)
        else
          '(out, special) ← decode (awaitingSpecial y) line;
          Some (mkYenc (r y) (readHeader y) special (eof y) out, None)
    end.

(** [y.Read(p)] with [len(p) = n]: the bytes copied into [p] and the
    error. *)
Definition Read (y : yencReader) (n : nat) : option (yencReader * list Z * option error) :=
  '(y, err) ← (if bool_decide (length (buf y) = 0%nat) then nextLine y else Some (y, None));
  match err with
  | Some e => Some (y, [], Some e)
  | None =>
      Some (mkYenc (r y) (readHeader y) (awaitingSpecial y) (eof y) (drop n (buf y)),
            take n (buf y), None)
  end.

(** What running a loop for a bounded number of iterations gives. *)
Inductive outcome (A : Type) : Type :=
  | Returns (a : A)
  | Panics
  | StillRunning.
Arguments Returns {A} a.
Arguments Panics {A}.
Arguments StillRunning {A}.

(** One pass through the body of the loop of [Close]: [None] is the
    [break]; the error of [nextLine] is dropped, as in the source. *)
Definition Close_iter (y : yencReader) : option (option yencReader) :=
  if eof y then None
  else Some (fst <$> nextLine y).

(** [y.Close()], run for at most [fuel] iterations of its [for] loop. *)
Fixpoint Close (fuel : nat) (y : yencReader) : outcome yencReader :=
  match Close_iter y with
  | None => Returns y
  | Some None => Panics
  | Some (Some y') =>
      match fuel with
      | O => StillRunning
      | S fuel' => Close fuel' y'
      end
  end.

(** *** The decoding rule in the words of the specification *)

(** Bytes are taken left to right with one carried bit [pending]:
    with [pending] set the output byte is (input - 42 - 64) mod 256 and
    [pending] is cleared; otherwise ['='] sets [pending] and emits
    nothing; otherwise the output byte is (input - 42) mod 256. *)
Fixpoint decode_spec (pending : bool) (input : list Z) : list Z * bool :=
  match input with
  | [] => ([], pending)
  | c :: input' =>
      if pending then
        let '(out, p) := decode_spec false input' in ((c - 42 - 64) mod 256 :: out, p)
      else if c =? 61 then decode_spec true input'
      else
        let '(out, p) := decode_spec false input' in ((c - 42) mod 256 :: out, p)
  end.

(** The number of escape markers consumed: the ['='] bytes met while
    [pending] is clear. *)
Fixpoint markers_consumed (pending : bool) (input : list Z) : nat :=
  match input with
  | [] => 0
  | c :: input' =>
      if pending then markers_consumed false input'
      else if c =? 61 then S (markers_consumed true input')
      else markers_consumed false input'
  end.

(** *** Decoding a sequence of data lines *)

(** Successive calls [y.decode(line)] on the same receiver: the
    receiver's [awaitingSpecial] left by one call is the one the next
    call starts with.  The result is the concatenation of the returned
    slices. *)
Fixpoint decode_lines (special : bool) (lines : list (list Z)) : option (list Z * bool) :=
  match lines with
  | [] => Some ([], special)
  | line :: lines' =>
      '(out, special') ← decode special line;
      '(outs, special'') ← decode_lines special' lines';
      Some (out ++ outs, special'')
  end.

(** *** The encoder *)

Section Encoder.

(** The bytes the encoder escapes.  The specification leaves the set
    open (the bytes that would collide with protocol-sensitive
    values). *)
Variable critical : Z → bool.

(** Modelled from the spec: the yEnc encoder, which the repository
    (a client that only decodes) does not contain.  Every byte is
    offset by 42 modulo 256; an offset byte that is critical is sent
    as the escape character ['='] followed by the offset byte plus 64
    modulo 256. *)
Fixpoint encode (b : list Z) : list Z :=
  match b with
  | [] => []
  | x :: b' =>
      let o := Uint8.add x 42 in
      if critical o then ESC :: Uint8.add o 64 :: encode b'
      else o :: encode b'
  end.

End Encoder.

(** A body cut short: the header line and one data line (the encoding
    of ["Hi"]), and then the end of the input without a [=yend] line. *)
Definition truncated_body : yencReader :=
  mkYenc (Bufio.bytes "=ybegin line=128 size=2 name=hi.txt" ++ [CR; LF]
          ++ [114; 147] ++ [CR; LF])
         false false false [].

(** The same body in full, for comparison. *)
Definition complete_body : yencReader :=
  mkYenc (Bufio.bytes "=ybegin line=128 size=2 name=hi.txt" ++ [CR; LF]
          ++ [114; 147] ++ [CR; LF]
          ++ Bufio.bytes "=yend size=2" ++ [CR; LF])
         false false false [].

(** *** Callers of [Read], and bodies as they arrive *)

(** The caller's loop around [Read]: read into a buffer of [n] bytes
    until [Read] returns an error, for at most [fuel] calls that return
    without one.  The result is the reader, the bytes read and the error
    that ended the loop. *)
Fixpoint Reads (fuel n : nat) (y : yencReader) : outcome (yencReader * list Z * error) :=
  match Read y n with
  | None => Panics
  | Some (y', data, Some e) => Returns (y', data, e)
  | Some (y', data, None) =>
      match fuel with
      | O => StillRunning
      | S fuel' =>
          match Reads fuel' n y' with
          | Returns (y'', more, e) => Returns (y'', data ++ more, e)
          | Panics => Panics
          | StillRunning => StillRunning
          end
      end
  end.

(** The bytes of a sequence of lines on the stream: each line (with the
    CR of its line ending, if it has one) followed by LF. *)
Definition wire (raws : list (list Z)) : list Z :=
  concat ((λ raw, raw ++ [LF]) <$> raws).

(** The line [nextLine] works on: the raw line after
    [bytes.TrimRight(line, "\r\n")]. *)
Definition chomp (raw : list Z) : list Z := Bufio.TrimRight raw [CR; LF].

(** A raw data line: no line feed inside, and no [=yend] at its start. *)
Definition data_raw (raw : list Z) : Prop :=
  (LF ∉ raw) ∧ Bufio.HasPrefix (chomp raw) yend = false.

(** The caller's loop ends with the result [res]. *)
Definition reads_to (n : nat) (y : yencReader) (res : yencReader * list Z * error) : Prop :=
  ∃ fuel, Reads fuel n y = Returns res.

(** A sequence of bytes with no CR, no LF and no ['='] followed by
    ['y']. *)
Fixpoint plain (s : list Z) : bool :=
  match s with
  | [] => true
  | c :: s' =>
      negb (c =? CR) && negb (c =? LF)
      && match s' with
         | d :: _ => negb ((c =? ESC) && (d =? 121))
         | [] => true
         end
      && plain s'
  end.

(** The critical bytes of the yEnc format: NUL, LF, CR and ['=']. *)
Definition critical_yenc (o : Z) : bool :=
  bool_decide (o ∈ [0; LF; CR; ESC]).

End Yenc.

(** ** bufio.Reader and the strings package over Go strings *)

Module Strings.

Definition LF : ascii := Ascii.ascii_of_nat 10.
Definition CR : ascii := Ascii.ascii_of_nat 13.
(** The double quote character. *)
Definition DQUOTE : ascii := Ascii.ascii_of_nat 34.

(** [r.ReadString(delim)]: the string up to and including the first
    [delim]; when the input ends before a [delim], what was read and
    [io.EOF].  The result is (string, remaining input, error). *)
Fixpoint ReadString (delim : ascii) (r : string) : string * string * option error :=
  match r with
  | EmptyString => (EmptyString, EmptyString, Some EOF)
  | String c r' =>
      if Ascii.eqb c delim then (String c EmptyString, r', None)
      else let '(data, rest, err) := ReadString delim r' in (String c data, rest, err)
  end.

(** [c] is one of the characters of [cutset]. *)
Fixpoint ContainsRune (cutset : string) (c : ascii) : bool :=
  match cutset with
  | EmptyString => false
  | String d cutset' => Ascii.eqb c d || ContainsRune cutset' c
  end.

(** [strings.TrimRight(s, cutset)]: [s] without its trailing characters
    that are in [cutset]. *)
Fixpoint TrimRight (s : string) (cutset : string) : string :=
  match s with
  | EmptyString => EmptyString
  | String c s' =>
      match TrimRight s' cutset with
      | EmptyString => if ContainsRune cutset c then EmptyString else String c EmptyString
      | t => String c t
      end
  end.

(** ["\r\n"] *)
Definition CRLF : string := String CR (String LF EmptyString).

(** Every character of [s] is [c]. *)
Fixpoint only (c : ascii) (s : string) : bool :=
  match s with
  | EmptyString => true
  | String d s' => Ascii.eqb d c && only c s'
  end.

End Strings.

(** ** zlib_dot_reader.go *)

Module ZlibDot.

(** [`expected "." on a line, got `], the constant part of the format
    string of [readDot]. *)
Definition expected_dot : string :=
  "expected " +:+ String Strings.DQUOTE ("." +:+ String Strings.DQUOTE " on a line, got ").

Section Reader.

(** The decompression filter [z.z], an [io.ReadCloser] made by
    [zlib.NewReader(clear)]: its state (with that of the [bufio.Reader]
    [z.Reader] wrapped around it) is kept abstract.  The filter holds
    the same [*bufio.Reader] as the field [clear], so its [Close] is
    given the clear stream and returns it: (new state, clear stream,
    error). *)
Variable zstate : Type.
Variable zClose : zstate → string → zstate * string * option error.

(** [zlib.NewReader(clear)]: it reads the header of the compressed
    stream from the clear stream and gives the filter or an error, and
    the clear stream after that. *)
Variable zNewReader : string → (error + zstate) * string.

(** [fmt.Sprintf("%+q", s)] of Go's [fmt] package. *)
Variable fmt_plus_q : string → string.

Record zlibDotResponse : Type := mkZlibDot {
  clear : string;
  z : zstate;
  dotWasRead : bool
}.

(** The clear stream is shared with the connection: it is returned with
    the result. *)
Definition newZlibDotResponse (clear : string) : (error + zlibDotResponse) * string :=
  match zNewReader clear with
  | (inr z, clear') => (inr (mkZlibDot clear' z false), clear')
  | (inl zerr, clear') => (inl zerr, clear')
  end.

Definition readDot (zr : zlibDotResponse) : zlibDotResponse * option error :=
  if dotWasRead zr then (zr, None)
  else
    let '(line, rest, err) := Strings.ReadString Strings.LF (clear zr) in
    let zr := mkZlibDot rest (z zr) true in
    match err with
    | Some e => (zr, Some e)
    | None =>
        if negb (String.eqb (Strings.TrimRight line Strings.CRLF) ".") then
          (zr, Some (ProtocolError (expected_dot +:+ fmt_plus_q line)))
        else (zr, None)
    end.

(** [z.z.Close()] is called as a statement: its error is not kept. *)
Definition Close (zr : zlibDotResponse) : zlibDotResponse * option error :=
  let '(z', clear', _) := zClose (z zr) (clear zr) in
  readDot (mkZlibDot clear' z' (dotWasRead zr)).

End Reader.

Arguments clear {zstate} _.
Arguments z {zstate} _.
Arguments dotWasRead {zstate} _.
Arguments mkZlibDot {zstate} _ _ _.
Arguments newZlibDotResponse {zstate} _ _.
Arguments readDot {zstate} _ _.
Arguments Close {zstate} _ _ _.

(** *** An instance of the filter *)

(** The [Close] of compress/zlib's reader: it returns the error the
    reader met before, if any, and reads nothing.  The state kept here
    is that error. *)
Definition zlibClose (zerr : option error) (clear : string)
  : option error * string * option error :=
  (zerr, clear, zerr).

(** A rendering of [%+q] for strings of printable ASCII characters, CR
    and LF: the string between double quotes, with CR, LF, the double
    quote and the backslash written as escapes. *)
Fixpoint quote_body (s : string) : string :=
  match s with
  | EmptyString => EmptyString
  | String c s' =>
      if Ascii.eqb c Strings.CR then "\r" +:+ quote_body s'
      else if Ascii.eqb c Strings.LF then "\n" +:+ quote_body s'
      else if Ascii.eqb c Strings.DQUOTE || Ascii.eqb c (Ascii.ascii_of_nat 92)
           then String (Ascii.ascii_of_nat 92) (String c (quote_body s'))
      else String c (quote_body s')
  end.

Definition quote (s : string) : string :=
  String Strings.DQUOTE (quote_body s +:+ String Strings.DQUOTE EmptyString).

(** A response whose decompressor met a checksum error and whose clear
    stream holds the terminator line and the next status line. *)
Definition corrupt_response : zlibDotResponse (option error) :=
  mkZlibDot ("." +:+ Strings.CRLF +:+ "205 Bye!" +:+ Strings.CRLF)
            (Some (ErrZlib "zlib: invalid checksum")) false.

End ZlibDot.

(** ** The parts of the package that are specified but not in the sources

    The body readers above are two files of the package; the connection
    type, its dot-terminated body reader and its overview commands are in
    files that are not part of the sources at hand (their tests are:
    [TestBasics], [TestHacks] and the scripted servers [basicServer] and
    [hackServer]).  They are modelled below from the specification. *)

(** The kinds of error of the specification. *)
Inductive failure : Type :=
| IOError                                  (* transport failure, end of stream *)
| FormatError (msg : string)               (* a body does not follow its grammar *)
| StatusFailure (code : Z) (text : string). (* a failure status line *)

Module Multiline.

(** Modelled from the spec: the Line Channel's [readLine] (section 4.1),
    which is not in the sources.  It returns the next line with the
    two-byte line ending stripped, and the rest of the stream; [None] is
    the end of the stream before a full line. *)
Fixpoint readLine (s : string) : option (string * string) :=
  match s with
  | EmptyString => None
  | String c s' =>
      match s' with
      | String d s'' =>
          if Ascii.eqb c Strings.CR && Ascii.eqb d Strings.LF then Some (EmptyString, s'')
          else '(l, rest) ← readLine s'; Some (String c l, rest)
      | EmptyString => None
      end
  end.

(** One line-level step of the body reader: more data or the end. *)
Inductive step : Type :=
| More (line : string)
| End.

(** [s] begins with [".."]. *)
Definition stuffed (s : string) : bool :=
  match s with
  | String a (String b _) => Ascii.eqb a "."%char && Ascii.eqb b "."%char
  | _ => false
  end.

(** Dot-unstuffing: exactly one leading ["."] is stripped from a line
    that begins with [".."]. *)
Definition unstuff (line : string) : string :=
  if stuffed line then
    match line with
    | String _ line' => line'
    | EmptyString => EmptyString
    end
  else line.

(** Modelled from the spec: one step of the Multiline Body Reader
    (section 4.2), which is not in the sources.  A line equal to ["."]
    ends the body; any other line is content, unstuffed. *)
Definition nextLine (s : string) : failure + (step * string) :=
  match readLine s with
  | None => inl IOError
  | Some (line, rest) =>
      if String.eqb line "." then inr (End, rest)
      else inr (More (unstuff line), rest)
  end.

(** Modelled from the spec: reading the body to its end, line by line,
    for at most [fuel] lines.  The lines handed to the caller, in order,
    and the stream after the terminator. *)
Fixpoint readBody (fuel : nat) (s : string) : failure + (list string * string) :=
  match fuel with
  | O => inl IOError
  | S fuel' =>
      match nextLine s with
      | inl e => inl e
      | inr (End, rest) => inr ([], rest)
      | inr (More line, rest) =>
          match readBody fuel' rest with
          | inl e => inl e
          | inr (lines, rest') => inr (line :: lines, rest')
          end
      end
  end.

(** Every line takes at least two bytes of the stream, so the length of
    the stream bounds the number of lines. *)
Definition readAll (s : string) : failure + (list string * string) :=
  readBody (String.length s) s.

(** The lines of a body as sent: each followed by the line ending. *)
Fixpoint frame (lines : list string) : string :=
  match lines with
  | [] => EmptyString
  | line :: lines' => line +:+ Strings.CRLF +:+ frame lines'
  end.

End Multiline.

Module Overview.

Definition TAB : ascii := Ascii.ascii_of_nat 9.

(** White space: space, tab, LF, VT, FF, CR. *)
Definition isSpace (c : ascii) : bool :=
  let n := Ascii.nat_of_ascii c in
  (n =? 32)%nat || ((9 <=? n)%nat && (n <=? 13)%nat).

(** The fields of [s] between the characters that satisfy [sep]: one more
    field than there are separators. *)
Fixpoint split (sep : ascii → bool) (s : string) : list string :=
  match s with
  | EmptyString => [EmptyString]
  | String c s' =>
      if sep c then EmptyString :: split sep s'
      else match split sep s' with
           | f :: fs => String c f :: fs
           | [] => [String c EmptyString]
           end
  end.

(** Split on white space, dropping the empty tokens. *)
Definition fields (s : string) : list string :=
  filter (λ f, f ≠ EmptyString) (split isSpace s).

Definition digit (c : ascii) : option Z :=
  let n := Ascii.nat_of_ascii c in
  if (48 <=? n)%nat && (n <=? 57)%nat then Some (Z.of_nat n - 48) else None.

Fixpoint parseDigits (acc : Z) (s : string) : option Z :=
  match s with
  | EmptyString => Some acc
  | String c s' => d ← digit c; parseDigits (10 * acc + d) s'
  end.

(** A non-negative decimal integer; [None] when [s] is empty or has a
    character that is not a digit. *)
Definition parseUint (s : string) : option Z :=
  match s with
  | EmptyString => None
  | _ => parseDigits 0 s
  end.

(** A decimal integer with an optional sign. *)
Definition parseInt (s : string) : option Z :=
  match s with
  | String c s' =>
      if Ascii.eqb c (Ascii.ascii_of_nat 45) then Z.opp <$> parseUint s'
      else if Ascii.eqb c (Ascii.ascii_of_nat 43) then parseUint s'
      else parseUint s
  | EmptyString => None
  end.

(** The [i]-th field; an absent field is empty. *)
Definition field (fs : list string) (i : nat) : string := default EmptyString (fs !! i).

Section Parse.

(** Timestamps, and the parser of the legacy date formats, which the
    specification leaves open: [None] is a total parse failure. *)
Variable Time : Type.
Variable zeroTime : Time.
Variable parseDate : string → option Time.

(** The Overview Record of the data model. *)
Record MessageOverview : Type := mkOverview {
  Number : Z;
  Subject : string;
  Sender : string;
  Timestamp : Time;
  MessageId : string;
  References : list string;
  Bytes : Z;
  Lines : Z;
  Extra : list string
}.

(** Modelled from the spec: the record parsing rule of section 4.5; the
    parser of the package is not in the sources.  The line is
    tab-delimited; field 0 is mandatory and a line without it is a
    malformed record; the other fields degrade to empty or zero. *)
Definition parseOverview (line : string) : failure + MessageOverview :=
  let fs := split (Ascii.eqb TAB) line in
  match parseUint (field fs 0) with
  | None => inl (FormatError line)
  | Some n =>
      inr {| Number := n;
             Subject := field fs 1;
             Sender := field fs 2;
             Timestamp := default zeroTime (parseDate (field fs 3));
             MessageId := field fs 4;
             References := fields (field fs 5);
             Bytes := default 0 (parseInt (field fs 6));
             Lines := default 0 (parseInt (field fs 7));
             Extra := drop 8 fs |}
  end.

(** A malformed record is fatal for the whole request. *)
Fixpoint parseLines (lines : list string) : failure + list MessageOverview :=
  match lines with
  | [] => inr []
  | line :: lines' =>
      match parseOverview line with
      | inl e => inl e
      | inr ov =>
          match parseLines lines' with
          | inl e => inl e
          | inr ovs => inr (ov :: ovs)
          end
      end
  end.

(** *** The overview engine *)

(** The three command variants, for a range of article numbers. *)
Inductive command : Type :=
| XZVER (lo hi : Z)   (* compressed overview *)
| OVER (lo hi : Z)    (* standard overview *)
| XOVER (lo hi : Z).  (* legacy extended-header overview *)

(** The state of an extension in the capability cache. *)
Inductive capability : Type := Unknown | Supported | Unsupported.

(** What the server sends back for one command: the status line and,
    after a success status, the lines of the body as the body reader of
    the variant (compressed or dot-terminated) hands them over. *)
Record reply : Type := mkReply {
  code : Z;
  text : string;
  body : list string
}.

(** A 2xx code: success, a body follows. *)
Definition success (rp : reply) : bool := (200 <=? code rp) && (code rp <? 300).

(** The connection: the capability cache, the commands written so far
    and the replies the server will give, in order. *)
Record Conn : Type := mkConn {
  caps : gmap string capability;
  sent : list command;
  incoming : list reply
}.

(** Write a command and read the status line (and, on success, the whole
    body) of its reply; [None] is the end of the stream. *)
Definition exchange (c : Conn) (cmd : command) : Conn * option reply :=
  let c := mkConn (caps c) (sent c ++ [cmd]) (incoming c) in
  match incoming c with
  | [] => (c, None)
  | rp :: rps => (mkConn (caps c) (sent c) rps, Some rp)
  end.

(** Step 3: the legacy command; its failure is the error of the request. *)
Definition overviewLegacy (c : Conn) (lo hi : Z) : Conn * (failure + list MessageOverview) :=
  match exchange c (XOVER lo hi) with
  | (c, None) => (c, inl IOError)
  | (c, Some rp) =>
      if success rp then (c, parseLines (body rp))
      else (c, inl (StatusFailure (code rp) (text rp)))
  end.

(** Step 2: the standard command, then step 3 when it fails. *)
Definition overviewStandard (c : Conn) (lo hi : Z) : Conn * (failure + list MessageOverview) :=
  match exchange c (OVER lo hi) with
  | (c, None) => (c, inl IOError)
  | (c, Some rp) =>
      if success rp then (c, parseLines (body rp))
      else overviewLegacy c lo hi
  end.

(** Modelled from the spec: the algorithm of section 4.5 for one request
    for the range [lo, hi]; the connection type and its overview method
    are not in the sources.  Step 1: unless the cache records the
    compressed command as unsupported, issue it; a failure status is
    cached and falls through to step 2. *)
Definition Overview (c : Conn) (lo hi : Z) : Conn * (failure + list MessageOverview) :=
  match caps c !! "XZVER"%string with
  | Some Unsupported => overviewStandard c lo hi
  | _ =>
      match exchange c (XZVER lo hi) with
      | (c, None) => (c, inl IOError)
      | (c, Some rp) =>
          if success rp then (c, parseLines (body rp))
          else overviewStandard
                 (mkConn (<["XZVER"%string := Unsupported]> (caps c)) (sent c) (incoming c))
                 lo hi
      end
  end.

(** A sequence of independent requests on the same connection. *)
Fixpoint requests (c : Conn) (ranges : list (Z * Z)) : Conn :=
  match ranges with
  | [] => c
  | (lo, hi) :: ranges' => requests (fst (Overview c lo hi)) ranges'
  end.

End Parse.

(** The commands a request issues once the compressed command is known
    to be unsupported: the standard one, and the legacy one after a
    failure status. *)
Definition uncompressed_commands (c : Conn) (lo hi : Z) : list command :=
  OVER lo hi ::
  match incoming c with
  | rp :: _ => if success rp then [] else [XOVER lo hi]
  | [] => []
  end.

(** *** The lines of the scenarios *)

(** A tab, as a string. *)
Definition T : string := String TAB EmptyString.

(** The line of scenario B. *)
Definition lineB : string :=
  "11" +:+ T +:+ "SubjectB" +:+ T +:+ T +:+ "18 Oct 2003 19:00:00 +0030" +:+ T
  +:+ "<e@f>" +:+ T +:+ "<d@e> <a@b>" +:+ T +:+ "2000" +:+ T +:+ "18" +:+ T
  +:+ "Extra stuff".

(** The line of scenario A: no references, no extra field. *)
Definition lineA : string :=
  "10" +:+ T +:+ "SubjectA" +:+ T +:+ "Author" +:+ T
  +:+ "Sat, 18 Oct 2003 18:00:00 +0030" +:+ T +:+ "<a@b>" +:+ T +:+ T
  +:+ "1000" +:+ T +:+ "9".

(** *** The scripted servers of the tests *)

(** The overview line of article 55010 in [hackServer]. *)
Definition hackLine55010 : string :=
  "55010" +:+ T
  +:+ "Re: Supermarket staff stab customer to death for complaining" +:+ T
  +:+ "Jethro <jethro_uk@hotmail.com>" +:+ T
  +:+ "Mon, 8 Jun 2009 06:27:41 -0700 (PDT)" +:+ T
  +:+ "<162bacd2-b4d5-490b-b98f-944b1ae27d28@h28g2000yqd.googlegroups.com>" +:+ T
  +:+ "<10ne25lo0a67kjvj3p3juj4e6fo12ci90o@4ax.com> <h08prb$fv7$1@frank-exchange-of-views.oucs.ox.ac.uk> " +:+ T
  +:+ "<A6OdnZqzDpzeabrXnZ2dnUVZ8qKdnZ2d@bt.com> <h08stk$gu3$1@frank-exchange-of-views.oucs.ox.ac.uk> " +:+ T
  +:+ "<3pWdnaRmM9h1ZbrXnZ2dneKdnZydnZ2d@bt.com> <h0gorg$st2$1@localhost.localdomain> " +:+ T
  +:+ "<Y7qdnV1ox7f7TLHXnZ2dnUVZ8gKdnZ2d@bt.com> <1fop259hut1lguvpi1crbtadtpjeaq0ttg@4ax.com> " +:+ T
  +:+ "<J6Odnd0x_MSkd7HXnZ2dnUVZ8q2dnZ2d@bt.com> <a03bfa3d-9d7b-46f8-a4e4-8d279612a157@y7g2000yqa.googlegroups.com> " +:+ T
  +:+ "<rvadnaNGnI_ulrDXnZ2dnUVZ8nqdnZ2d@bt.com>" +:+ T
  +:+ "1935" +:+ T
  +:+ "55" +:+ T
  +:+ "Xref: news-big.astraweb.com uk.legal:1033432 uk.politics.misc:1593178 uk.politics.drugs:55010".

(** The overview line of article 53102 in [hackServer]. *)
Definition hackLine53102 : string :=
  "53102" +:+ T
  +:+ "Re: Two men to be hanged for trafficking in cannabis" +:+ T
  +:+ "johannes <johs@sizef3367786864itter.com>" +:+ T
  +:+ "Sat, 11 Oct 2008 00:10:24 +0100" +:+ T
  +:+ "<48EFE0E0.229481B@sizef3367786864itter.com>" +:+ T
  +:+ "<6l64q5FaqjquU1@mid.individual.net> <fNadnZpn3tWKYXDVRVnytQA@pipex.net> " +:+ T
  +:+ "" +:+ T
  +:+ "<6l6f92FavfkiU1@mid.individual.net> <d0eecf41-9924-4955-96a5-a53c8d3ddca8@a2g2000prm.googlegroups.com> " +:+ T
  +:+ "" +:+ T
  +:+ "<329te4dpc4sgvluren79qn4s38ubasea5m@4ax.com> <6l8guvFb321kU2@mid.individual.net> " +:+ T
  +:+ "" +:+ T
  +:+ "<7u2dneydodp0F3LVnZ2dnUVZ8t3inZ2d@bt.com> <62a152c0-f62c-4786-b454-fd9e8d05e68a@m74g2000hsh.googlegroups.com>" +:+ T
  +:+ "1558" +:+ T
  +:+ "27" +:+ T
  +:+ "Xref: news-big.astraweb.com talk.politics.drugs:181567 uk.legal:937888 uk.politics.drugs:53102 rec.drugs.cannabis:25907".

(** The overview line of article 59034 in [hackServer]. *)
Definition hackLine59034 : string :=
  "59034" +:+ T
  +:+ "Campaigning against the 'war on drugs'" +:+ T
  +:+ "tomcosta43@gmail.com" +:+ T
  +:+ "Sat, 1 Sep 2012 05:08:18 -0700 (PDT)" +:+ T
  +:+ "<d6575f22-6b6a-42d2-9d40-08e808f0ee78@googlegroups.com>" +:+ T
  +:+ "<s46dndUc54vjTkLTnZ2dnUVZ8kadnZ2d@bt.com>" +:+ T
  +:+ "1390" +:+ T
  +:+ "" +:+ T
  +:+ "Xref: news-big.astraweb.com uk.politics.drugs:59034".

(** The replies of [hackServer] to the overview commands, with their
    bodies as the fixture has them (the lines of articles 55010 and
    53102 have tabs inside the references column). *)
Definition hackServer : list reply :=
  [ mkReply 500 "Not supported" [];
    mkReply 500 "What?" [];
    mkReply 224 "data follows " [hackLine55010];
    mkReply 500 "What?" [];
    mkReply 224 "data follows " [hackLine53102];
    mkReply 500 "What?" [];
    mkReply 224 "data follows " [hackLine59034] ].

(** The replies of [basicServer] to the overview commands. *)
Definition basicServer : list reply :=
  [ mkReply 500 "Not supported" [];
    mkReply 224 "Overview information for 10-11 follows"
      [ "10" +:+ T +:+ "Subject10" +:+ T +:+ "Author <author@server>" +:+ T
        +:+ "Sat, 18 Oct 2003 18:00:00 +0030" +:+ T +:+ "<d@e.f>" +:+ T +:+ T
        +:+ "1000" +:+ T +:+ "9";
        "11" +:+ T +:+ "Subject11" +:+ T +:+ T +:+ "18 Oct 2003 19:00:00 +0030" +:+ T
        +:+ "<e@f.g>" +:+ T +:+ "<d@e.f> <a@b.c>" +:+ T +:+ "2000" +:+ T +:+ "18" +:+ T
        +:+ "Extra stuff" ] ].

(** A date parser that keeps the text of the date. *)
Definition keepDate (s : string) : option string := Some s.

End Overview.

(** * Properties *)

Section Uint8Facts.

Lemma and_255 (x : Z) : Uint8.and x 255 = x mod 256.
Proof. unfold Uint8.and. change 255 with (Z.ones 8). by rewrite Z.land_ones. Qed.

Lemma yenc42 (c : Z) : Uint8.and (Uint8.sub c 42) 255 = (c - 42) mod 256.
Proof. rewrite and_255. unfold Uint8.sub. by rewrite Z.mod_mod. Qed.

Lemma yenc42_64 (c : Z) :
  Uint8.and (Uint8.sub (Uint8.and (Uint8.sub c 42) 255) 64) 255 = (c - 42 - 64) mod 256.
Proof.
  rewrite yenc42, and_255. unfold Uint8.sub.
  rewrite Z.mod_mod by lia. by rewrite Zminus_mod_idemp_l.
Qed.

End Uint8Facts.

Module YencFacts.
Import Yenc.

Lemma index_drop (line : list Z) (n : nat) (c : Z) (rest : list Z) :
  drop n line = c :: rest → index line (Z.of_nat n) = Some c.
Proof.
  intros Hd. unfold index.
  destruct (Z.ltb_spec (Z.of_nat n) 0) as [?|_]; [lia|].
  rewrite Nat2Z.id. rewrite <- (Nat.add_0_r n), <- lookup_drop, Hd. done.
Qed.

Lemma store_in_range (line : list Z) (n : nat) (v : Z) :
  (n < length line)%nat → store line (Z.of_nat n) v = Some (<[n := v]> line).
Proof.
  intros Hn. unfold store.
  destruct (Z.ltb_spec (Z.of_nat n) 0) as [?|_]; [lia|].
  destruct (Z.leb_spec (Z.of_nat (length line)) (Z.of_nat n)) as [?|_]; [lia|].
  simpl. by rewrite Nat2Z.id.
Qed.

(** The invariant of the loop of [decode]: the write index never passes
    the read index, the unread part of the buffer is untouched and the
    part below the write index is the output so far. *)
Lemma decode_loop_spec (rest : list Z) :
  ∀ (fuel : nat) (line : list Z) (i j : nat) (special : bool),
    (length rest ≤ fuel)%nat →
    (j ≤ i)%nat →
    drop i line = rest →
    (i + length rest = length line)%nat →
    ∃ s, decode_loop fuel (mkDec line (Z.of_nat i) (Z.of_nat j) special) = Some s
         ∧ d_i s = Z.of_nat (length line)
         ∧ length (d_line s) = length line
         ∧ d_j s = Z.of_nat (j + length (fst (decode_spec special rest)))
         ∧ take (j + length (fst (decode_spec special rest))) (d_line s)
             = take j line ++ fst (decode_spec special rest)
         ∧ d_special s = snd (decode_spec special rest).
Proof.
  induction rest as [|c rest IH]; intros fuel line i j special Hfuel Hji Hdrop Hlen.
  - simpl in *. exists (mkDec line (Z.of_nat i) (Z.of_nat j) special).
    assert (decode_loop fuel (mkDec line (Z.of_nat i) (Z.of_nat j) special)
            = Some (mkDec line (Z.of_nat i) (Z.of_nat j) special)) as ->.
    { destruct fuel; simpl;
        destruct (Z.ltb_spec (Z.of_nat i) (Z.of_nat (length line))); (lia || done). }
    simpl. rewrite !Nat.add_0_r, app_nil_r. repeat split; try done. f_equal; lia.
  - simpl in Hfuel, Hlen. destruct fuel as [|fuel]; [lia|].
    assert (Hi : (i < length line)%nat) by lia.
    assert (Hrest : drop (S i) line = rest).
    { replace (S i) with (i + 1)%nat by lia. rewrite <- drop_drop, Hdrop. done. }
    cbn [decode_loop d_i d_line].
    destruct (Z.ltb_spec (Z.of_nat i) (Z.of_nat (length line))) as [_|?]; [|lia].
    unfold decode_iter. cbn [d_i d_j d_line d_special].
    rewrite (index_drop _ _ _ _ Hdrop). cbn [mbind option_bind].
    assert (Hstep : ∀ v special',
      ∃ s, decode_loop fuel (mkDec (<[j := v]> line) (Z.of_nat i + 1) (Z.of_nat j + 1) special')
           = Some s
         ∧ d_i s = Z.of_nat (length line)
         ∧ length (d_line s) = length line
         ∧ d_j s = Z.of_nat (j + length (v :: fst (decode_spec special' rest)))
         ∧ take (j + length (v :: fst (decode_spec special' rest))) (d_line s)
             = take j line ++ v :: fst (decode_spec special' rest)
         ∧ d_special s = snd (decode_spec special' rest)).
    { intros v special'.
      destruct (IH fuel (<[j := v]> line) (S i) (S j) special') as (s & Hs & H1 & H2 & H3 & H4 & H5).
      - lia.
      - lia.
      - rewrite drop_insert_lt by lia. done.
      - rewrite length_insert. lia.
      - exists s. rewrite length_insert in H1, H2.
        replace (Z.of_nat i + 1) with (Z.of_nat (S i)) by lia.
        replace (Z.of_nat j + 1) with (Z.of_nat (S j)) by lia.
        repeat split; try done.
        + rewrite H3. f_equal. simpl. lia.
        + simpl length. replace (j + S (length (fst (decode_spec special' rest))))%nat
            with (S j + length (fst (decode_spec special' rest)))%nat by lia.
          rewrite H4.
          rewrite (take_S_r _ j v) by (apply list_lookup_insert_eq; lia).
          rewrite take_insert_ge by lia. by rewrite <- app_assoc. }
    destruct special.
    + rewrite store_in_range by lia. cbn [mbind option_bind].
      rewrite yenc42_64. simpl decode_spec.
      destruct (decode_spec false rest) as [out p] eqn:E.
      specialize (Hstep ((c - 42 - 64) mod 256) false). rewrite E in Hstep. exact Hstep.
    + destruct (Z.eqb_spec c ESC) as [->|Hne].
      * simpl decode_spec.
        replace (Z.of_nat j - 1 + 1) with (Z.of_nat j) by lia.
        replace (Z.of_nat i + 1) with (Z.of_nat (S i)) by lia.
        apply IH; (lia || done).
      * rewrite store_in_range by lia. cbn [mbind option_bind].
        rewrite yenc42. simpl decode_spec.
        destruct (Z.eqb_spec c 61) as [?|_]; [done|].
        destruct (decode_spec false rest) as [out p] eqn:E.
        specialize (Hstep ((c - 42) mod 256) false). rewrite E in Hstep. exact Hstep.
Qed.

End YencFacts.

Module YencDecode.
Import Yenc YencFacts.

(** The in-place loop computes what the rule of the specification
    gives, never indexes out of range and stops within [len(line)]
    iterations. *)
Lemma decode_eq_spec (special : bool) (line : list Z) :
  decode special line = Some (decode_spec special line).
Proof.
  unfold decode.
  destruct (decode_loop_spec line (length line) line 0 0 special)
    as (s & Hs & Hi & Hlen & Hj & Htake & Hsp); [lia | lia | done | simpl; lia |].
  change (Z.of_nat 0) with 0 in Hs. rewrite Hs. cbn [mbind option_bind]. rewrite Hlen, Hi, Hj. simpl in Htake.
  replace (Z.to_nat (Z.of_nat (length line)
             - (Z.of_nat (length line) - Z.of_nat (0 + length (fst (decode_spec special line))))))
    with (length (fst (decode_spec special line))) by lia.
  rewrite Htake, Hsp. by destruct (decode_spec special line).
Qed.

Lemma decode_loop_exits (special : bool) (line : list Z) :
  ∃ s, decode_loop (length line) (mkDec line 0 0 special) = Some s ∧ decode_exited s.
Proof.
  destruct (decode_loop_spec line (length line) line 0 0 special)
    as (s & Hs & Hi & Hlen & _); [lia | lia | done | simpl; lia |].
  exists s. split; [done|]. unfold decode_exited. lia.
Qed.

Lemma markers_length (pending : bool) (line : list Z) :
  (length (fst (decode_spec pending line)) + markers_consumed pending line
   = length line)%nat.
Proof.
  revert pending. induction line as [|c line IH]; intros pending; [done|].
  simpl. destruct pending.
  - specialize (IH false). destruct (decode_spec false line). simpl in *. lia.
  - destruct (c =? 61).
    + specialize (IH true). lia.
    + specialize (IH false). destruct (decode_spec false line). simpl in *. lia.
Qed.

(** C4. [decode] takes the bytes of a data line left to right with one
    carried bit: with the escape pending, a byte [c] gives the output
    byte (c - 42 - 64) mod 256 and clears the bit; otherwise ['=']
    (61) sets the bit and gives no output; otherwise [c] gives
    (c - 42) mod 256.  The returned slice is as long as the line minus
    the number of escape markers consumed. *)
Theorem yenc_decode_rule (pending : bool) (c : Z) (line : list Z) :
  decode pending [] = Some ([], pending)
  ∧ decode true (c :: line)
    = ('(out, p) ← decode false line; Some ((c - 42 - 64) mod 256 :: out, p))
  ∧ decode false (c :: line)
    = (if c =? 61 then decode true line
       else '(out, p) ← decode false line; Some ((c - 42) mod 256 :: out, p))
  ∧ ∃ out p, decode pending line = Some (out, p)
             ∧ (length out + markers_consumed pending line = length line)%nat.
Proof.
  rewrite !decode_eq_spec. repeat split.
  - simpl. by destruct (decode_spec false line).
  - simpl. destruct (c =? 61); [done|].
    by destruct (decode_spec false line).
  - pose proof (markers_length pending line) as H.
    destruct (decode_spec pending line) as [out p]. eauto.
Qed.

Lemma decode_spec_app (pending : bool) (l1 l2 : list Z) :
  decode_spec pending (l1 ++ l2)
  = let '(o1, p1) := decode_spec pending l1 in
    let '(o2, p2) := decode_spec p1 l2 in (o1 ++ o2, p2).
Proof.
  revert pending. induction l1 as [|c l1 IH]; intros pending.
  - simpl. by destruct (decode_spec pending l2).
  - simpl. destruct pending.
    + rewrite IH. destruct (decode_spec false l1) as [o1 p1].
      by destruct (decode_spec p1 l2).
    + destruct (c =? 61); [apply IH|].
      rewrite IH. destruct (decode_spec false l1) as [o1 p1].
      by destruct (decode_spec p1 l2).
Qed.

(** Decoding line by line with the carried bit is decoding the
    concatenation of the lines. *)
Lemma decode_lines_concat (special : bool) (lines : list (list Z)) :
  decode_lines special lines = decode special (concat lines).
Proof.
  rewrite decode_eq_spec. revert special.
  induction lines as [|line lines IH]; intros special; [done|].
  simpl. rewrite decode_eq_spec, decode_spec_app.
  destruct (decode_spec special line) as [o1 p1]. cbn [mbind option_bind].
  rewrite IH. by destruct (decode_spec p1 (concat lines)).
Qed.

Lemma decode_spec_encode (critical : Z → bool) (b : list Z) :
  critical ESC = true →
  Forall Uint8.is_byte b →
  decode_spec false (encode critical b) = (b, false).
Proof.
  intros Hesc Hb. induction Hb as [|x b Hx _ IH]; [done|].
  unfold Uint8.is_byte in Hx. simpl.
  destruct (critical (Uint8.add x 42)) eqn:Hc.
  - cbn [decode_spec]. change (ESC =? 61) with true. cbv iota.
    cbn [decode_spec]. rewrite IH. f_equal. f_equal.
    unfold Uint8.add.
    rewrite <- Z.sub_add_distr, Zminus_mod_idemp_l.
    rewrite <- (Z.add_opp_r _ (42 + 64)), <- Z.add_assoc, Zplus_mod_idemp_l.
    replace (x + 42 + (64 + - (42 + 64))) with x by lia. by apply Z.mod_small.
  - cbn [decode_spec].
    destruct (Z.eqb_spec (Uint8.add x 42) 61) as [E|_].
    { rewrite E in Hc. unfold ESC in Hesc. congruence. }
    rewrite IH. f_equal. f_equal. unfold Uint8.add.
    rewrite Zminus_mod_idemp_l. replace (x + 42 - 42) with x by lia.
    by apply Z.mod_small.
Qed.

(** C5. Whatever set of critical bytes the encoder escapes, as long as
    it escapes ['='] itself: for every sequence [b] of bytes, however
    the encoding of [b] is cut into data lines, decoding the lines one
    after the other gives back exactly [b], with no escape left
    pending. *)
Theorem yenc_decode_encode (critical : Z → bool) (b : list Z) (lines : list (list Z)) :
  critical ESC = true →
  Forall Uint8.is_byte b →
  concat lines = encode critical b →
  decode_lines false lines = Some (b, false).
Proof.
  intros Hesc Hb Hlines.
  rewrite decode_lines_concat, Hlines, decode_eq_spec.
  by rewrite decode_spec_encode.
Qed.

(** The bytes 19 (sent escaped, as ['='] then ['}']), ['H'] and ['i'],
    with the line break between the escape marker and the escaped
    byte. *)
Lemma yenc_decode_encode_witness :
  decode_lines false [[61]; [125; 114; 147]] = Some ([19; 72; 105], false).
Proof.
  apply (yenc_decode_encode critical_yenc [19; 72; 105] [[61]; [125; 114; 147]]).
  - reflexivity.
  - repeat constructor; unfold Uint8.is_byte; lia.
  - reflexivity.
Defined.

End YencDecode.

Module YencReader.
Import Yenc YencFacts YencDecode.

(** Membership of concrete bytes in concrete sets of bytes. *)
Ltac byte_mem :=
  unfold ESC, CR, LF in *;
  rewrite ?elem_of_app, ?elem_of_cons, ?elem_of_nil in *;
  intuition (lia || congruence).

Lemma ReadBytes_line (delim : Z) (l rest : list Z) :
  delim ∉ l →
  Bufio.ReadBytes delim (l ++ delim :: rest) = (l ++ [delim], rest, None).
Proof.
  induction l as [|c l IH]; intros Hl; simpl.
  - by rewrite Z.eqb_refl.
  - apply not_elem_of_cons in Hl as [Hc Hl].
    destruct (Z.eqb_spec c delim) as [?|_]; [congruence|].
    by rewrite IH.
Qed.

Lemma ReadBytes_eof (delim : Z) (l : list Z) :
  delim ∉ l → Bufio.ReadBytes delim l = (l, [], Some EOF).
Proof.
  induction l as [|c l IH]; intros Hl; simpl; [done|].
  apply not_elem_of_cons in Hl as [Hc Hl].
  destruct (Z.eqb_spec c delim) as [?|_]; [congruence|].
  by rewrite IH.
Qed.

Lemma TrimRight_snoc_keep (l cutset : list Z) (x : Z) :
  x ∉ cutset → Bufio.TrimRight (l ++ [x]) cutset = l ++ [x].
Proof.
  intros Hx. induction l as [|c l IH]; simpl.
  - by rewrite bool_decide_eq_false_2.
  - rewrite IH. by destruct l.
Qed.

Lemma TrimRight_snoc_cut (l cutset : list Z) (x : Z) :
  x ∈ cutset → Bufio.TrimRight (l ++ [x]) cutset = Bufio.TrimRight l cutset.
Proof.
  intros Hx. induction l as [|c l IH]; simpl.
  - by rewrite bool_decide_eq_true_2.
  - by rewrite IH.
Qed.

(** A data line read by [nextLine]: the line is decoded into [buf] and
    the escape bit left by [decode] stays in the receiver. *)
Lemma nextLine_data (y : yencReader) (raw more : list Z) :
  readHeader y = true → eof y = false →
  r y = raw ++ LF :: more →
  LF ∉ raw →
  Bufio.HasPrefix (Bufio.TrimRight raw [CR; LF]) yend = false →
  nextLine y
  = let '(out, special) := decode_spec (awaitingSpecial y) (Bufio.TrimRight raw [CR; LF]) in
    Some (mkYenc more true special false out, None).
Proof.
  intros Hh He Hr Hlf Hend. unfold nextLine.
  rewrite He, Hr, ReadBytes_line by done. cbn [readHeader eof awaitingSpecial r buf].
  rewrite Hh. cbn [negb].
  rewrite TrimRight_snoc_cut by byte_mem.
  rewrite Hend, decode_eq_spec. cbn [mbind option_bind].
  by destruct (decode_spec _ _).
Qed.

(** C7. When a data line ends with an escape marker that is not itself
    an escaped byte, the reader is left with [awaitingSpecial] set, and
    the first byte [c] of the next data line is decoded as
    (c - 42 - 64) mod 256. *)
Theorem yenc_escape_carried (y : yencReader) (pre raw2 rest more : list Z) (c : Z) :
  readHeader y = true → eof y = false →
  r y = pre ++ [ESC; CR; LF] ++ raw2 ++ [LF] ++ more →
  LF ∉ pre → LF ∉ raw2 →
  snd <$> decode (awaitingSpecial y) pre = Some false →
  Bufio.HasPrefix (pre ++ [ESC]) yend = false →
  Bufio.TrimRight raw2 [CR; LF] = c :: rest →
  Bufio.HasPrefix (c :: rest) yend = false →
  ∃ y1 y2 out,
    nextLine y = Some (y1, None) ∧ awaitingSpecial y1 = true
    ∧ nextLine y1 = Some (y2, None)
    ∧ buf y2 = (c - 42 - 64) mod 256 :: out.
Proof.
  intros Hh He Hr Hpre Hraw2 Hdang Hend1 Htrim Hend2.
  rewrite decode_eq_spec in Hdang. simpl in Hdang.
  assert (Htrim1 : Bufio.TrimRight (pre ++ [ESC; CR]) [CR; LF] = pre ++ [ESC]).
  { change (pre ++ [ESC; CR]) with (pre ++ [ESC] ++ [CR]). rewrite app_assoc.
    rewrite TrimRight_snoc_cut by byte_mem.
    apply TrimRight_snoc_keep. byte_mem. }
  assert (H1 : nextLine y
               = Some (mkYenc (raw2 ++ [LF] ++ more) true true false
                         (fst (decode_spec (awaitingSpecial y) pre)), None)).
  { rewrite (nextLine_data y (pre ++ [ESC; CR]) (raw2 ++ [LF] ++ more)); try done.
    - rewrite Htrim1, decode_spec_app.
      destruct (decode_spec (awaitingSpecial y) pre) as [o1 p1]. injection Hdang as ->.
      simpl. by rewrite app_nil_r.
    - rewrite Hr, <- app_assoc. done.
    - byte_mem.
    - by rewrite Htrim1. }
  eexists _, (mkYenc more true (snd (decode_spec false rest)) false
                ((c - 42 - 64) mod 256 :: fst (decode_spec false rest))), _.
  split; [exact H1|]. split; [done|]. split; [|done].
  rewrite (nextLine_data _ raw2 more); try done; [|by rewrite Htrim].
  rewrite Htrim. cbn [awaitingSpecial decode_spec].
  by destruct (decode_spec false rest) as [out p].
Qed.

(** The stream ["a=\r\nJb\r\n"] after the header: ['J'] (74) is decoded
    as (74 - 42 - 64) mod 256 = 224. *)
Lemma yenc_escape_carried_witness :
  ∃ y1 y2 out,
    nextLine (mkYenc [97; 61; 13; 10; 74; 98; 13; 10] true false false []) = Some (y1, None)
    ∧ awaitingSpecial y1 = true
    ∧ nextLine y1 = Some (y2, None)
    ∧ buf y2 = 224 :: out.
Proof.
  apply (yenc_escape_carried
           (mkYenc [97; 61; 13; 10; 74; 98; 13; 10] true false false [])
           [97] [74; 98; 13] [98] [] 74); try reflexivity.
  - apply (bool_decide_unpack _). vm_compute. exact I.
  - apply (bool_decide_unpack _). vm_compute. exact I.
Defined.

(** *** [Close] *)

Lemma Close_S (fuel : nat) (y y' : yencReader) :
  Close_iter y = Some (Some y') → Close (S fuel) y = Close fuel y'.
Proof. intros H. simpl. by rewrite H. Qed.

(** Once the input is exhausted and no [=yend] line was seen,
    [nextLine] returns the [io.EOF] of [ReadBytes] and leaves [eof]
    unset; the loop of [Close] drops that error and goes round again in
    the same state. *)
Lemma Close_iter_exhausted (y : yencReader) :
  eof y = false → r y = [] → Close_iter y = Some (Some y).
Proof.
  intros He Hr. unfold Close_iter, nextLine. rewrite He, Hr. simpl.
  destruct y; simpl in *. by subst.
Qed.

Lemma Close_exhausted (fuel : nat) (y : yencReader) :
  eof y = false → r y = [] → Close fuel y = StillRunning.
Proof.
  intros He Hr. induction fuel as [|fuel IH].
  - simpl. by rewrite Close_iter_exhausted.
  - by rewrite (Close_S _ _ y) by by apply Close_iter_exhausted.
Qed.

(** C3. On a body that ends before its [=yend] line, [Close] does not
    return: whatever the number of iterations allowed, its loop is
    still running. *)
Theorem yenc_Close_spins_on_truncated_body (fuel : nat) :
  Close fuel truncated_body = StillRunning.
Proof.
  destruct fuel as [|[|fuel]]; [reflexivity | reflexivity |].
  rewrite (Close_S _ _ (mkYenc ([114; 147] ++ [CR; LF]) true false false []))
    by reflexivity.
  rewrite (Close_S _ _ (mkYenc [] true false false [72; 105])) by reflexivity.
  by apply Close_exhausted.
Qed.

Example Close_complete_body :
  Close 3 complete_body = Returns (mkYenc [] true false true [72; 105]).
Proof. reflexivity. Qed.

(** Reading the complete body gives the two bytes of ["Hi"], then
    [io.EOF]. *)
Example Read_complete_body :
  ∃ y1 y2 y3,
    Read complete_body 4096 = Some (y1, [], None)
    ∧ Read y1 4096 = Some (y2, [72; 105], None)
    ∧ Read y2 4096 = Some (y3, [], Some EOF).
Proof. by eexists _, _, _. Qed.

End YencReader.

Module ZlibDotFacts.
Import Strings ZlibDot.

Lemma ReadString_line (delim : ascii) (line rest : string) :
  ContainsRune line delim = false →
  ReadString delim (line +:+ String delim rest)
  = (line +:+ String delim EmptyString, rest, None).
Proof.
  induction line as [|c line IH]; simpl; intros Hl.
  - by rewrite Ascii.eqb_refl.
  - apply orb_false_elim in Hl as [Hc Hl].
    rewrite Ascii.eqb_sym, Hc. by rewrite IH.
Qed.

Section Reader.
Context {zstate : Type}.
Variable zClose : zstate → string → zstate * string * option error.
Variable fmt_plus_q : string → string.

Local Abbreviation Close := (Close zClose fmt_plus_q).
Local Abbreviation readDot := (readDot fmt_plus_q).

Lemma readDot_sets_dotWasRead (zr : zlibDotResponse zstate) :
  dotWasRead (fst (readDot zr)) = true.
Proof.
  unfold ZlibDot.readDot. destruct (dotWasRead zr) eqn:E; [done|].
  destruct (ReadString LF (clear zr)) as [[line rest] [e|]]; [done|].
  by destruct (negb _).
Qed.



(** The first [Close] on a clear stream that holds a line: the line is
    taken off the stream and tested as [readDot] tests it. *)
Lemma zlib_Close_checks_terminator_eq
    (zr : zlibDotResponse zstate) (z' : zstate) (zerr : option error)
    (line rest : string) :
  dotWasRead zr = false →
  zClose (z zr) (clear zr) = (z', line +:+ String LF rest, zerr) →
  ContainsRune line LF = false →
  Close zr
  = (mkZlibDot rest z' true,
     if String.eqb (TrimRight (line +:+ String LF EmptyString) CRLF) "."
     then None
     else Some (ProtocolError
                  (expected_dot +:+ fmt_plus_q (line +:+ String LF EmptyString)))).
Proof.
  intros Hdot Hz Hline. unfold ZlibDot.Close, ZlibDot.readDot.
  rewrite Hz. cbn [dotWasRead clear z]. rewrite Hdot, ReadString_line by done.
  by destruct (String.eqb _ _).
Qed.

(** The filter's [Close] does not read from the stream it wraps. *)
Hypothesis zClose_reads_nothing :
  ∀ (s : zstate) (c : string), snd (fst (zClose s c)) = c.

Lemma Close_again (zr : zlibDotResponse zstate) :
  dotWasRead zr = true →
  snd (Close zr) = None
  ∧ clear (fst (Close zr)) = clear zr
  ∧ dotWasRead (fst (Close zr)) = true.
Proof.
  intros Hdot. unfold ZlibDot.Close, ZlibDot.readDot.
  pose proof (zClose_reads_nothing (z zr) (clear zr)) as Hc.
  destruct (zClose (z zr) (clear zr)) as [[z' clear'] e]. simpl in Hc. subst clear'.
  cbn [dotWasRead]. by rewrite Hdot.
Qed.

Lemma Close_sets_dotWasRead (zr : zlibDotResponse zstate) :
  dotWasRead (fst (Close zr)) = true.
Proof.
  unfold ZlibDot.Close. destruct (zClose (z zr) (clear zr)) as [[z' clear'] e].
  apply readDot_sets_dotWasRead.
Qed.

(** C10. After a first [Close], whatever it returned, every further
    [Close] returns nil and leaves the clear stream as the first one
    left it. *)
Theorem zlib_Close_idempotent (zr : zlibDotResponse zstate) (n : nat) :
  let zr1 := fst (Close zr) in
  let zrn := Nat.iter n (λ zr', fst (Close zr')) zr1 in
  snd (Close zrn) = None
  ∧ clear (fst (Close zrn)) = clear zr1.
Proof.
  intros zr1 zrn.
  assert (H : dotWasRead zrn = true ∧ clear zrn = clear zr1).
  { subst zrn. induction n as [|n [IH1 IH2]]; simpl.
    - split; [apply Close_sets_dotWasRead | done].
    - destruct (Close_again _ IH1) as (_ & Hc & Hd). split; [done | congruence]. }
  destruct H as [Hd Hc]. destruct (Close_again _ Hd) as (He & Hc' & _).
  split; [done | congruence].
Qed.

End Reader.


Lemma zlib_Close_idempotent_witness :
  snd (Close zlibClose quote
         (Nat.iter 2 (λ zr', fst (Close zlibClose quote zr'))
            (fst (Close zlibClose quote corrupt_response)))) = None
  ∧ clear (fst (Close zlibClose quote
         (Nat.iter 2 (λ zr', fst (Close zlibClose quote zr'))
            (fst (Close zlibClose quote corrupt_response)))))
    = clear (fst (Close zlibClose quote corrupt_response)).
Proof.
  apply (zlib_Close_idempotent zlibClose quote (λ s c, eq_refl) corrupt_response 2).
Defined.

(** A line other than ["."] is reported with its text. *)
Example Close_unexpected_line :
  snd (Close zlibClose quote (mkZlibDot ("224 more" +:+ CRLF) None false))
  = Some (ProtocolError (expected_dot +:+ quote ("224 more" +:+ CRLF))).
Proof. reflexivity. Qed.

End ZlibDotFacts.

Module StringFacts.

Lemma append_nil_l (b : string) : "" +:+ b = b.
Proof. reflexivity. Qed.

Lemma append_cons (x : ascii) (a b : string) : String x a +:+ b = String x (a +:+ b).
Proof. reflexivity. Qed.

Lemma append_assoc (a b c : string) : (a +:+ b) +:+ c = a +:+ (b +:+ c).
Proof.
  induction a as [|x a IH]; [done|]. rewrite !append_cons. by f_equal.
Qed.

Lemma length_append (a b : string) :
  String.length (a +:+ b) = (String.length a + String.length b)%nat.
Proof.
  induction a as [|x a IH]; [done|]. rewrite append_cons. simpl. by f_equal.
Qed.

End StringFacts.

Module MultilineFacts.
Import Strings Multiline StringFacts.

Lemma readLine_frame (line rest : string) :
  ContainsRune line LF = false →
  readLine (line +:+ CRLF +:+ rest) = Some (line, rest).
Proof.
  induction line as [|c line IH]; intros Hl; [done|].
  cbn [ContainsRune] in Hl. apply orb_false_elim in Hl as [Hc Hl].
  specialize (IH Hl). rewrite append_cons. cbn [readLine].
  destruct line as [|d line].
  - rewrite append_nil_l in *. unfold CRLF in *. rewrite append_cons in *.
    change (Ascii.eqb CR LF) with false.
    rewrite andb_false_r. by rewrite IH.
  - rewrite append_cons in *. cbn [ContainsRune] in Hl.
    apply orb_false_elim in Hl as [Hd _].
    rewrite (Ascii.eqb_sym d LF), Hd, andb_false_r. by rewrite IH.
Qed.

Lemma unstuff_cases (line : string) :
  (∃ t, line = ".." +:+ t ∧ unstuff line = "." +:+ t)
  ∨ (stuffed line = false ∧ unstuff line = line).
Proof.
  unfold unstuff. destruct (stuffed line) eqn:E; [left | by right].
  destruct line as [|a [|b t]]; try done.
  cbn [stuffed] in E. apply andb_true_iff in E as [Ha Hb].
  apply Ascii.eqb_eq in Ha as ->. apply Ascii.eqb_eq in Hb as ->. by exists t.
Qed.

Lemma readBody_frame (lines : list string) (rest : string) :
  Forall (λ l, ContainsRune l LF = false ∧ l ≠ "."%string) lines →
  ∀ fuel, (length lines < fuel)%nat →
  readBody fuel (frame lines +:+ "." +:+ CRLF +:+ rest) = inr (unstuff <$> lines, rest).
Proof.
  induction 1 as [|l lines [Hlf Hdot] _ IH]; intros fuel Hfuel;
    (destruct fuel as [|fuel]; [simpl in Hfuel; lia|]).
  - cbn [frame readBody]. rewrite append_nil_l. unfold nextLine.
    by rewrite (readLine_frame "." rest).
  - cbn [frame readBody]. unfold nextLine.
    rewrite !append_assoc, readLine_frame by done.
    apply String.eqb_neq in Hdot. rewrite Hdot.
    rewrite IH by (simpl in Hfuel; lia). done.
Qed.

Lemma length_frame (lines : list string) (tail : string) :
  (length lines + String.length tail ≤ String.length (frame lines +:+ tail))%nat.
Proof.
  induction lines as [|l lines IH]; [cbn [frame]; rewrite append_nil_l; simpl; lia|].
  cbn [frame length]. rewrite !append_assoc, !length_append.
  rewrite length_append in IH. change (String.length CRLF) with 2%nat. lia.
Qed.

(** C9. For every body of content lines (none of them ["."], none with a
    line feed inside) followed by the terminator line: reading the body
    ends as end-of-data, not as an error, right after the terminator; the
    caller gets one line per content line, in order; a line that begins
    with [".."] comes without its first ["."], and every other line comes
    unchanged. *)
Theorem multiline_body_unstuffed (lines : list string) (rest : string) :
  Forall (λ l, ContainsRune l LF = false ∧ l ≠ "."%string) lines →
  ∃ out,
    readAll (frame lines +:+ "." +:+ CRLF +:+ rest) = inr (out, rest)
    ∧ Forall2 (λ l o, (∃ t, l = ".." +:+ t ∧ o = "." +:+ t)
                      ∨ (stuffed l = false ∧ o = l)) lines out.
Proof.
  intros Hlines. exists (unstuff <$> lines). split.
  - unfold readAll. apply readBody_frame; [done|].
    pose proof (length_frame lines ("." +:+ CRLF +:+ rest)) as H. simpl in H. lia.
  - clear Hlines. induction lines as [|l lines IH]; simpl; constructor; [|done].
    apply unstuff_cases.
Qed.

(** The body of the first article of [basicServer], followed by the next
    status line. *)
Lemma multiline_body_unstuffed_witness :
  ∃ out,
    readAll (frame ["Blah, blah."; "..A single leading ."; "Fin."]
             +:+ "." +:+ CRLF +:+ "220 2 <b@c.d> article" +:+ CRLF)
      = inr (out, "220 2 <b@c.d> article" +:+ CRLF)
    ∧ Forall2 (λ l o, (∃ t, l = ".." +:+ t ∧ o = "." +:+ t)
                      ∨ (stuffed l = false ∧ o = l))
        ["Blah, blah."; "..A single leading ."; "Fin."]%string out.
Proof.
  apply (multiline_body_unstuffed
           ["Blah, blah."; "..A single leading ."; "Fin."]%string
           ("220 2 <b@c.d> article" +:+ CRLF)).
  repeat constructor; done.
Defined.

(** [TestBasics]: the article body is not mangled. *)
Example basicServer_article_body :
  readAll (frame ["Blah, blah."; "..A single leading ."; "Fin."]
           +:+ "." +:+ CRLF +:+ "220 2 <b@c.d> article" +:+ CRLF)
  = inr (["Blah, blah."; ".A single leading ."; "Fin."]%string,
         "220 2 <b@c.d> article" +:+ CRLF).
Proof. reflexivity. Qed.

End MultilineFacts.

Module OverviewFacts.
Import Overview.

Section Parse.
Context {Time : Type}.
Variable zeroTime : Time.
Variable parseDate : string → option Time.

Local Abbreviation parseOverview := (parseOverview Time zeroTime parseDate).
Local Abbreviation Overview := (Overview Time zeroTime parseDate).
Local Abbreviation overviewStandard := (overviewStandard Time zeroTime parseDate).
Local Abbreviation overviewLegacy := (overviewLegacy Time zeroTime parseDate).
Local Abbreviation requests := (requests Time zeroTime parseDate).

Lemma parseOverview_References (line : string) (ov : MessageOverview Time) :
  parseOverview line = inr ov →
  References Time ov = fields (field (split (Ascii.eqb TAB) line) 5).
Proof.
  unfold Overview.parseOverview.
  destruct (parseUint _); [|done]. by intros [= <-].
Qed.

(** C8. The line of scenario B parses to a record with number 11, an
    empty sender, the references ["<d@e>"] and ["<a@b>"] and the one
    extra field ["Extra stuff"], whatever the date parser does; and a
    record parsed from a line whose references field is empty has no
    references. *)
Theorem overview_scenario_B :
  (∃ ov, parseOverview lineB = inr ov
         ∧ Number Time ov = 11
         ∧ Sender Time ov = ""%string
         ∧ References Time ov = ["<d@e>"; "<a@b>"]%string
         ∧ Extra Time ov = ["Extra stuff"%string])
  ∧ (∀ line ov,
        parseOverview line = inr ov →
        field (split (Ascii.eqb TAB) line) 5 = ""%string →
        References Time ov = []).
Proof.
  split.
  - eexists. split; [reflexivity|]. repeat split; reflexivity.
  - intros line ov Hov Hfield.
    by rewrite (parseOverview_References _ _ Hov), Hfield.
Qed.

(** *** The overview engine *)

Lemma overviewLegacy_sent (c : Conn) (lo hi : Z) :
  caps (fst (overviewLegacy c lo hi)) = caps c
  ∧ sent (fst (overviewLegacy c lo hi)) = sent c ++ [XOVER lo hi].
Proof.
  unfold Overview.overviewLegacy, exchange. simpl.
  destruct (incoming c) as [|rp rps]; [done|]. by destruct (success rp).
Qed.

Lemma overviewStandard_sent (c : Conn) (lo hi : Z) :
  caps (fst (overviewStandard c lo hi)) = caps c
  ∧ sent (fst (overviewStandard c lo hi)) = sent c ++ uncompressed_commands c lo hi.
Proof.
  unfold Overview.overviewStandard, exchange, uncompressed_commands. simpl.
  destruct (incoming c) as [|rp rps]; [done|].
  destruct (success rp) eqn:E.
  - simpl. by destruct rps.
  - destruct (overviewLegacy_sent (mkConn (caps c) (sent c ++ [OVER lo hi]) rps) lo hi)
      as [H1 H2].
    rewrite H1, H2. simpl. rewrite <- app_assoc. by destruct rps.
Qed.

Lemma Overview_unsupported (c : Conn) (lo hi : Z) :
  caps c !! "XZVER"%string = Some Unsupported →
  caps (fst (Overview c lo hi)) = caps c
  ∧ sent (fst (Overview c lo hi)) = sent c ++ uncompressed_commands c lo hi.
Proof.
  intros Hc. unfold Overview.Overview. rewrite Hc. apply overviewStandard_sent.
Qed.

Lemma requests_unsupported (ranges : list (Z * Z)) :
  ∀ c, caps c !! "XZVER"%string = Some Unsupported →
       caps (requests c ranges) !! "XZVER"%string = Some Unsupported.
Proof.
  induction ranges as [|[lo hi] ranges IH]; intros c Hc; [done|].
  simpl. apply IH. by rewrite (proj1 (Overview_unsupported c lo hi Hc)).
Qed.

Lemma Overview_caches_failure (c : Conn) (lo hi : Z) (rp : reply) (rps : list reply) :
  caps c !! "XZVER"%string ≠ Some Unsupported →
  incoming c = rp :: rps →
  success rp = false →
  caps (fst (Overview c lo hi)) !! "XZVER"%string = Some Unsupported
  ∧ ∃ more, sent (fst (Overview c lo hi)) = sent c ++ XZVER lo hi :: more.
Proof.
  intros Hc Hin Hfail. unfold Overview.Overview.
  assert (Hgo : ∀ c0 : Conn * (failure + list (MessageOverview Time)),
    c0 = match exchange c (XZVER lo hi) with
         | (c', None) => (c', inl IOError)
         | (c', Some rp') =>
             if success rp' then (c', parseLines Time zeroTime parseDate (body rp'))
             else overviewStandard
                    (mkConn (<["XZVER"%string := Unsupported]> (caps c')) (sent c') (incoming c'))
                    lo hi
         end →
    caps (fst c0) !! "XZVER"%string = Some Unsupported
    ∧ ∃ more, sent (fst c0) = sent c ++ XZVER lo hi :: more).
  { intros c0 ->. unfold exchange. simpl. rewrite Hin, Hfail. simpl.
    match goal with |- context [overviewStandard ?c1 lo hi] =>
      destruct (overviewStandard_sent c1 lo hi) as [H1 H2]; rewrite H1, H2 end.
    simpl. split; [by rewrite lookup_insert_eq|].
    rewrite <- app_assoc. by eexists. }
  destruct (caps c !! "XZVER"%string) as [[| |]|]; try (by apply Hgo); done.
Qed.

(** C1. On a connection whose cache does not record the compressed
    command as unsupported, let a request issue the compressed command
    and get a failure status.  Then, after any number of further
    requests, the next request issues the standard command, then the
    legacy command when the standard one gets a failure status, and
    nothing else: the compressed command is not issued again, and the
    standard command is issued whatever it returned before. *)
Theorem overview_compressed_failure_cached
    (c : Conn) (lo hi : Z) (rp : reply) (rps : list reply)
    (ranges : list (Z * Z)) (lo' hi' : Z) :
  caps c !! "XZVER"%string ≠ Some Unsupported →
  incoming c = rp :: rps →
  success rp = false →
  let c1 := fst (Overview c lo hi) in
  let c' := requests c1 ranges in
  (∃ more, sent c1 = sent c ++ XZVER lo hi :: more)
  ∧ caps c' !! "XZVER"%string = Some Unsupported
  ∧ sent (fst (Overview c' lo' hi')) = sent c' ++ uncompressed_commands c' lo' hi'.
Proof.
  intros Hc Hin Hfail c1 c'.
  destruct (Overview_caches_failure c lo hi rp rps Hc Hin Hfail) as [Hcache Hsent].
  assert (Hc' : caps c' !! "XZVER"%string = Some Unsupported)
    by by apply requests_unsupported.
  split; [done|]. split; [done|]. by apply Overview_unsupported.
Qed.

End Parse.

(** [TestHacks]: the commands of [hackClient] after [GROUP]. *)
Example hackClient_commands :
  sent (requests string "" keepDate (mkConn ∅ [] hackServer)
          [(55010, 55010); (53102, 53102); (59034, 59034)])
  = [ XZVER 55010 55010; OVER 55010 55010; XOVER 55010 55010;
      OVER 53102 53102; XOVER 53102 53102;
      OVER 59034 59034; XOVER 59034 59034 ].
Proof. reflexivity. Qed.

(** [TestBasics]: the commands and the two records. *)
Example basicClient_overview :
  Overview string "" keepDate (mkConn ∅ [] basicServer) 10 11
  = (mkConn {["XZVER"%string := Unsupported]} [XZVER 10 11; OVER 10 11] [],
     inr [ mkOverview string 10 "Subject10" "Author <author@server>"
             "Sat, 18 Oct 2003 18:00:00 +0030" "<d@e.f>" [] 1000 9 [];
           mkOverview string 11 "Subject11" "" "18 Oct 2003 19:00:00 +0030"
             "<e@f.g>" ["<d@e.f>"; "<a@b.c>"]%string 2000 18 ["Extra stuff"%string] ]).
Proof. reflexivity. Qed.

Lemma overview_scenario_B_witness :
  parseOverview string "" keepDate lineA
  = inr (mkOverview string 10 "SubjectA" "Author" "Sat, 18 Oct 2003 18:00:00 +0030"
           "<a@b>" [] 1000 9 [])
  ∧ References string
      (mkOverview string 10 "SubjectA" "Author" "Sat, 18 Oct 2003 18:00:00 +0030"
         "<a@b>" [] 1000 9 []) = [].
Proof.
  split; [reflexivity|].
  apply (proj2 (overview_scenario_B "" keepDate) lineA); reflexivity.
Defined.

Lemma overview_compressed_failure_cached_witness :
  let c1 := fst (Overview string "" keepDate (mkConn ∅ [] hackServer) 55010 55010) in
  let c' := requests string "" keepDate c1 [(53102, 53102)] in
  (∃ more, sent c1 = [] ++ XZVER 55010 55010 :: more)
  ∧ caps c' !! "XZVER"%string = Some Unsupported
  ∧ sent (fst (Overview string "" keepDate c' 59034 59034))
    = sent c' ++ uncompressed_commands c' 59034 59034.
Proof.
  apply (overview_compressed_failure_cached "" keepDate (mkConn ∅ [] hackServer)
           55010 55010 (mkReply 500 "Not supported" []) (tail hackServer)
           [(53102, 53102)] 59034 59034); [|reflexivity|reflexivity].
  simpl. rewrite lookup_empty. discriminate.
Defined.

End OverviewFacts.

(** * Further properties of the yEnc reader *)

Module YencLines.
Import Yenc YencFacts YencDecode YencReader.

(** What [ReadBytes] returns is a prefix of the input, and it stops at
    the first delimiter or at the end of the input. *)
Lemma ReadBytes_split (delim : Z) (input : list Z) :
  ∃ data rest err,
    Bufio.ReadBytes delim input = (data, rest, err)
    ∧ input = data ++ rest
    ∧ ((err = None ∧ ∃ l, data = l ++ [delim] ∧ delim ∉ l)
       ∨ (err = Some EOF ∧ rest = [] ∧ delim ∉ data)).
Proof.
  induction input as [|c input (data & rest & err & IH & Hsplit & Hcases)]; simpl.
  - eexists _, _, _. split; [done|]. split; [done|]. right.
    repeat split; try done. apply not_elem_of_nil.
  - destruct (Z.eqb_spec c delim) as [->|Hne].
    + eexists _, _, _. split; [done|]. split; [done|]. left. split; [done|].
      exists []. split; [done|]. apply not_elem_of_nil.
    + rewrite IH. eexists _, _, _. split; [done|]. split; [by rewrite Hsplit|].
      destruct Hcases as [[-> (l & -> & Hl)] | (-> & -> & Hd)].
      * left. split; [done|]. exists (c :: l). split; [done|].
        apply not_elem_of_cons. split; [congruence | done].
      * right. repeat split; try done. apply not_elem_of_cons. split; [congruence | done].
Qed.

(** The header check on the first line. *)
Lemma nextLine_header (y : yencReader) (raw more : list Z) :
  readHeader y = false → eof y = false →
  r y = raw ++ LF :: more →
  LF ∉ raw →
  nextLine y
  = Some (if Bufio.HasPrefix (chomp raw) ybegin
          then (mkYenc more true (awaitingSpecial y) false (buf y), None)
          else (mkYenc more false (awaitingSpecial y) false (buf y),
                Some (ErrExpectedYbegin (chomp raw)))).
Proof.
  intros Hh He Hr Hlf. unfold nextLine, chomp.
  rewrite He, Hr, ReadBytes_line by done. cbn [readHeader eof awaitingSpecial r buf].
  rewrite Hh. cbn [negb].
  rewrite TrimRight_snoc_cut by byte_mem.
  by destruct (Bufio.HasPrefix _ ybegin).
Qed.

(** The trailer line. *)
Lemma nextLine_yend (y : yencReader) (raw more : list Z) :
  readHeader y = true → eof y = false →
  r y = raw ++ LF :: more →
  LF ∉ raw →
  Bufio.HasPrefix (chomp raw) yend = true →
  nextLine y = Some (mkYenc more true (awaitingSpecial y) true (buf y), Some EOF).
Proof.
  intros Hh He Hr Hlf Hend. unfold nextLine, chomp in *.
  rewrite He, Hr, ReadBytes_line by done. cbn [readHeader eof awaitingSpecial r buf].
  rewrite Hh. cbn [negb].
  rewrite TrimRight_snoc_cut by byte_mem.
  by rewrite Hend.
Qed.

(** X1. Before the header was read, [nextLine] takes one line off the
    stream; if the line begins with [=ybegin] it only records that the
    header was read, and otherwise it returns the error that quotes the
    line and leaves the header unread.  The decoded bytes and the escape
    bit are not touched in either case. *)
Theorem yenc_nextLine_header_check (y : yencReader) (raw more : list Z) :
  readHeader y = false → eof y = false →
  r y = raw ++ LF :: more →
  LF ∉ raw →
  nextLine y
  = Some (if Bufio.HasPrefix (chomp raw) ybegin
          then (mkYenc more true (awaitingSpecial y) false (buf y), None)
          else (mkYenc more false (awaitingSpecial y) false (buf y),
                Some (ErrExpectedYbegin (chomp raw)))).
Proof. apply nextLine_header. Qed.

Lemma yenc_nextLine_header_check_witness :
  nextLine (mkYenc (Bufio.bytes "=ypart begin=1" ++ [CR; LF; 114]) false false false [])
  = Some (mkYenc [114] false false false [],
          Some (ErrExpectedYbegin (Bufio.bytes "=ypart begin=1"))).
Proof.
  apply (yenc_nextLine_header_check
           (mkYenc (Bufio.bytes "=ypart begin=1" ++ [CR; LF; 114]) false false false [])
           (Bufio.bytes "=ypart begin=1" ++ [CR]) [114]); try reflexivity.
  apply (bool_decide_unpack _). vm_compute. exact I.
Defined.

(** X2. Once the header was read, every line that does not begin with
    [=yend] is a data line, a second [=ybegin] line or a [=ypart] line
    included: [nextLine] takes the line off the stream, replaces [buf]
    by its decoding and keeps the escape bit the decoding ends with. *)
Theorem yenc_nextLine_data_line (y : yencReader) (raw more : list Z) :
  readHeader y = true → eof y = false →
  r y = raw ++ LF :: more →
  LF ∉ raw →
  Bufio.HasPrefix (chomp raw) yend = false →
  ∃ out special,
    decode (awaitingSpecial y) (chomp raw) = Some (out, special)
    ∧ nextLine y = Some (mkYenc more true special false out, None).
Proof.
  intros Hh He Hr Hlf Hend.
  rewrite (nextLine_data y raw more), decode_eq_spec by done.
  fold (chomp raw). destruct (decode_spec _ _) as [out special]. by eexists _, _.
Qed.

Lemma yenc_nextLine_data_line_witness :
  ∃ out special,
    decode false (Bufio.bytes "=ypart begin=1") = Some (out, special)
    ∧ nextLine (mkYenc (Bufio.bytes "=ypart begin=1" ++ [CR; LF; 114]) true false false [])
      = Some (mkYenc [114] true special false out, None).
Proof.
  apply (yenc_nextLine_data_line
           (mkYenc (Bufio.bytes "=ypart begin=1" ++ [CR; LF; 114]) true false false [])
           (Bufio.bytes "=ypart begin=1" ++ [CR]) [114]); try reflexivity.
  apply (bool_decide_unpack _). vm_compute. exact I.
Defined.

Lemma nextLine_eof_sticky (y : yencReader) (k : nat) :
  eof y = true →
  Nat.iter k (λ st, st ≫= (λ '(y', _), nextLine y')) (Some (y, Some EOF))
  = Some (y, Some EOF).
Proof.
  intros He. induction k as [|k IH]; [done|].
  simpl. rewrite IH. simpl. unfold nextLine. by rewrite He.
Qed.

(** X3. Once the header was read, a line that begins with [=yend] ends
    the body: [nextLine] takes the line off the stream, sets [eof] and
    returns [io.EOF], without touching [buf] or the escape bit; and
    however often [nextLine] is called after that, it returns [io.EOF]
    and reads nothing more. *)
Theorem yenc_nextLine_yend_sticky (y : yencReader) (raw more : list Z) (k : nat) :
  readHeader y = true → eof y = false →
  r y = raw ++ LF :: more →
  LF ∉ raw →
  Bufio.HasPrefix (chomp raw) yend = true →
  Nat.iter k (λ st, st ≫= (λ '(y', _), nextLine y')) (nextLine y)
  = Some (mkYenc more true (awaitingSpecial y) true (buf y), Some EOF).
Proof.
  intros Hh He Hr Hlf Hend.
  rewrite (nextLine_yend y raw more) by done. by apply nextLine_eof_sticky.
Qed.

Lemma yenc_nextLine_yend_sticky_witness :
  Nat.iter 3 (λ st, st ≫= (λ '(y', _), nextLine y'))
    (nextLine (mkYenc (Bufio.bytes "=yend size=2" ++ [CR; LF] ++ Bufio.bytes "205 Bye")
                 true false false [72; 105]))
  = Some (mkYenc (Bufio.bytes "205 Bye") true false true [72; 105], Some EOF).
Proof.
  apply (yenc_nextLine_yend_sticky
           (mkYenc (Bufio.bytes "=yend size=2" ++ [CR; LF] ++ Bufio.bytes "205 Bye")
              true false false [72; 105])
           (Bufio.bytes "=yend size=2" ++ [CR]) (Bufio.bytes "205 Bye") 3);
    try reflexivity.
  apply (bool_decide_unpack _). vm_compute. exact I.
Defined.

(** X4. [nextLine] never panics, and it never reads past the first line
    feed: what it takes off the stream is nothing, or the whole rest of a
    stream that has no line feed, or one line up to and including its
    line feed. *)
Theorem yenc_nextLine_reads_one_line (y : yencReader) :
  ∃ y' err taken,
    nextLine y = Some (y', err)
    ∧ r y = taken ++ r y'
    ∧ (taken = []
       ∨ ((LF ∉ taken) ∧ r y' = [])
       ∨ ∃ l, taken = l ++ [LF] ∧ LF ∉ l).
Proof.
  unfold nextLine. destruct (eof y) eqn:He.
  { exists y, (Some EOF), []. split; [done|]. split; [done | by left]. }
  destruct (ReadBytes_split LF (r y)) as (data & rest & err & -> & Hsplit & Hcases).
  cbn [readHeader eof awaitingSpecial r buf].
  assert (Htaken : data = [] ∨ ((LF ∉ data) ∧ rest = []) ∨ ∃ l, data = l ++ [LF] ∧ LF ∉ l).
  { destruct Hcases as [[_ (l & -> & Hl)] | (_ & -> & Hd)].
    - right; right. by exists l.
    - right; left. done. }
  destruct Hcases as [[-> _] | (-> & _ & _)].
  - destruct (readHeader y); cbn [negb].
    + destruct (Bufio.HasPrefix _ yend).
      * by eexists _, _, data.
      * rewrite decode_eq_spec. cbn [mbind option_bind].
        destruct (decode_spec _ _) as [out special]. by eexists _, _, data.
    + destruct (Bufio.HasPrefix _ ybegin); by eexists _, _, data.
  - by eexists _, _, data.
Qed.

End YencLines.

Module YencBody.
Import Yenc YencFacts YencDecode YencReader YencLines.

Lemma decode_spec_bytes (pending : bool) (line : list Z) :
  Forall Uint8.is_byte (fst (decode_spec pending line)).
Proof.
  revert pending. induction line as [|c line IH]; intros pending; [by constructor|].
  simpl. destruct pending.
  - specialize (IH false). destruct (decode_spec false line). simpl in *.
    constructor; [|done]. unfold Uint8.is_byte. by apply Z.mod_pos_bound.
  - destruct (c =? 61); [apply IH|].
    specialize (IH false). destruct (decode_spec false line). simpl in *.
    constructor; [|done]. unfold Uint8.is_byte. by apply Z.mod_pos_bound.
Qed.

(** X5. Whatever integers the line holds and whatever the escape bit,
    [decode] returns (it does not index out of range), every value it
    returns is a byte, and it returns no more values than the line has. *)
Theorem yenc_decode_bytes (special : bool) (line : list Z) :
  ∃ out special',
    decode special line = Some (out, special')
    ∧ Forall Uint8.is_byte out
    ∧ (length out ≤ length line)%nat.
Proof.
  rewrite decode_eq_spec.
  pose proof (decode_spec_bytes special line) as Hb.
  pose proof (markers_length special line) as Hl.
  destruct (decode_spec special line) as [out special']. simpl in *.
  exists out, special'. split; [done|]. split; [done | lia].
Qed.

(** X6. Line breaks carry no information for the decoder: decoding the
    lines one after the other on the same reader, whatever the escape
    bit at the start, gives the bytes and the final escape bit of
    decoding their concatenation as one line. *)
Theorem yenc_line_breaks_irrelevant (special : bool) (lines : list (list Z)) :
  decode_lines special lines = decode special (concat lines).
Proof. apply decode_lines_concat. Qed.

(** *** [Close] on the rest of a body *)

Lemma wire_cons (raw : list Z) (raws : list (list Z)) (tail : list Z) :
  wire (raw :: raws) ++ tail = raw ++ LF :: (wire raws ++ tail).
Proof. unfold wire. simpl. by rewrite <- !app_assoc. Qed.

Lemma Close_iter_data (y : yencReader) (raw more : list Z) :
  readHeader y = true → eof y = false →
  r y = raw ++ LF :: more →
  data_raw raw →
  ∃ special out, Close_iter y = Some (Some (mkYenc more true special false out)).
Proof.
  intros Hh He Hr [Hlf Hend]. unfold Close_iter. rewrite He.
  rewrite (nextLine_data y raw more) by done.
  destruct (decode_spec _ _) as [out special]. by eexists _, _.
Qed.

Lemma Close_drains_lines (raws : list (list Z)) :
  ∀ (y : yencReader) (yendraw more : list Z) (fuel : nat),
    readHeader y = true → eof y = false →
    r y = wire raws ++ yendraw ++ LF :: more →
    Forall data_raw raws →
    LF ∉ yendraw →
    Bufio.HasPrefix (chomp yendraw) yend = true →
    (length raws < fuel)%nat →
    ∃ special out, Close fuel y = Returns (mkYenc more true special true out).
Proof.
  induction raws as [|raw raws IH];
    intros y yendraw more fuel Hh He Hr Hraws Hlf Hend Hfuel;
    (destruct fuel as [|fuel]; [simpl in Hfuel; lia|]).
  - rewrite (Close_S _ _ (mkYenc more true (awaitingSpecial y) true (buf y))).
    + exists (awaitingSpecial y), (buf y). by destruct fuel.
    + unfold Close_iter. rewrite He. by rewrite (nextLine_yend y yendraw more).
  - apply Forall_cons in Hraws as [Hraw Hraws].
    rewrite wire_cons in Hr.
    destruct (Close_iter_data y raw _ Hh He Hr Hraw) as (special & out & Hiter).
    rewrite (Close_S _ _ _ Hiter).
    apply (IH _ yendraw more); try done. simpl in Hfuel. lia.
Qed.

(** X7. Drain on close, for a body that is complete.  With the header
    read, and the stream holding any number of data lines, then a line
    that begins with [=yend], then [more]: [Close] returns, within one
    iteration per line, with [eof] set and the stream at [more], the
    first byte after the [=yend] line. *)
Theorem yenc_Close_drains (y : yencReader) (raws : list (list Z))
    (yendraw more : list Z) (fuel : nat) :
  readHeader y = true → eof y = false →
  r y = wire raws ++ yendraw ++ LF :: more →
  Forall data_raw raws →
  LF ∉ yendraw →
  Bufio.HasPrefix (chomp yendraw) yend = true →
  (length raws < fuel)%nat →
  ∃ y', Close fuel y = Returns y' ∧ eof y' = true ∧ r y' = more.
Proof.
  intros Hh He Hr Hraws Hlf Hend Hfuel.
  destruct (Close_drains_lines raws y yendraw more fuel) as (special & out & ->); try done.
  by eexists.
Qed.

Lemma yenc_Close_drains_witness :
  ∃ y',
    Close 2 (mkYenc ([114; 147; CR; LF] ++ Bufio.bytes "=yend size=2" ++ [CR; LF]
                     ++ Bufio.bytes "205 Bye") true false false [])
    = Returns y'
    ∧ eof y' = true ∧ r y' = Bufio.bytes "205 Bye".
Proof.
  apply (yenc_Close_drains
           (mkYenc ([114; 147; CR; LF] ++ Bufio.bytes "=yend size=2" ++ [CR; LF]
                    ++ Bufio.bytes "205 Bye") true false false [])
           [[114; 147; CR]] (Bufio.bytes "=yend size=2" ++ [CR]) (Bufio.bytes "205 Bye") 2);
    try reflexivity.
  - repeat constructor. apply (bool_decide_unpack _). vm_compute. exact I.
  - apply (bool_decide_unpack _). vm_compute. exact I.
  - simpl. lia.
Defined.

(** X8. The same when [Close] is called before anything was read: the
    stream holds a line that begins with [=ybegin], the data lines, the
    [=yend] line and [more]. *)
Theorem yenc_Close_drains_unread (y : yencReader) (hraw : list Z)
    (raws : list (list Z)) (yendraw more : list Z) (fuel : nat) :
  readHeader y = false → eof y = false →
  r y = hraw ++ LF :: wire raws ++ yendraw ++ LF :: more →
  LF ∉ hraw →
  Bufio.HasPrefix (chomp hraw) ybegin = true →
  Forall data_raw raws →
  LF ∉ yendraw →
  Bufio.HasPrefix (chomp yendraw) yend = true →
  (S (length raws) < fuel)%nat →
  ∃ y', Close fuel y = Returns y' ∧ eof y' = true ∧ r y' = more.
Proof.
  intros Hh He Hr Hlfh Hbegin Hraws Hlf Hend Hfuel.
  destruct fuel as [|fuel]; [lia|].
  rewrite (Close_S _ _ (mkYenc (wire raws ++ yendraw ++ LF :: more) true
                          (awaitingSpecial y) false (buf y))).
  - destruct (Close_drains_lines raws
                (mkYenc (wire raws ++ yendraw ++ LF :: more) true
                   (awaitingSpecial y) false (buf y)) yendraw more fuel)
      as (special & out & ->); try done; [lia|]. by eexists.
  - unfold Close_iter. rewrite He.
    rewrite (nextLine_header y hraw (wire raws ++ yendraw ++ LF :: more)) by done.
    by rewrite Hbegin.
Qed.

Lemma yenc_Close_drains_unread_witness :
  ∃ y', Close 3 complete_body = Returns y' ∧ eof y' = true ∧ r y' = [].
Proof.
  apply (yenc_Close_drains_unread complete_body
           (Bufio.bytes "=ybegin line=128 size=2 name=hi.txt" ++ [CR])
           [[114; 147; CR]] (Bufio.bytes "=yend size=2" ++ [CR]) [] 3);
    try reflexivity.
  - apply (bool_decide_unpack _). vm_compute. exact I.
  - repeat constructor. apply (bool_decide_unpack _). vm_compute. exact I.
  - apply (bool_decide_unpack _). vm_compute. exact I.
  - simpl. lia.
Defined.

(** *** [Close] without a header *)

Lemma Close_no_newline (y : yencReader) (fuel : nat) :
  eof y = false → LF ∉ r y → Close fuel y = StillRunning.
Proof.
  intros He Hlf.
  assert (Hiter : Close_iter y
                  = Some (Some (mkYenc [] (readHeader y) (awaitingSpecial y) false (buf y)))).
  { unfold Close_iter, nextLine. by rewrite He, ReadBytes_eof by done. }
  destruct fuel as [|fuel]; [simpl; by rewrite Hiter|].
  rewrite (Close_S _ _ _ Hiter). by apply Close_exhausted.
Qed.

(** X9. As long as the header was not read, [Close] takes no line for
    the trailer: when no line of the stream begins with [=ybegin], lines
    that begin with [=yend] included, every line is rejected by the
    header check, [eof] is never set, and [Close] does not return,
    whatever the number of iterations. *)
Theorem yenc_Close_without_header (y : yencReader) (raws : list (list Z))
    (tail : list Z) (fuel : nat) :
  readHeader y = false → eof y = false →
  r y = wire raws ++ tail →
  Forall (λ raw, (LF ∉ raw) ∧ Bufio.HasPrefix (chomp raw) ybegin = false) raws →
  LF ∉ tail →
  Close fuel y = StillRunning.
Proof.
  revert y fuel. induction raws as [|raw raws IH]; intros y fuel Hh He Hr Hraws Htail.
  - apply Close_no_newline; [done|]. by rewrite Hr.
  - apply Forall_cons in Hraws as [[Hlf Hnb] Hraws]. rewrite wire_cons in Hr.
    assert (Hiter : Close_iter y
                    = Some (Some (mkYenc (wire raws ++ tail) false
                                    (awaitingSpecial y) false (buf y)))).
    { unfold Close_iter. rewrite He.
      rewrite (nextLine_header y raw (wire raws ++ tail)) by done. by rewrite Hnb. }
    destruct fuel as [|fuel]; [simpl; by rewrite Hiter|].
    rewrite (Close_S _ _ _ Hiter). by apply IH.
Qed.

Lemma yenc_Close_without_header_witness :
  Close 10 (mkYenc ([114; 147; CR; LF] ++ Bufio.bytes "=yend size=2" ++ [CR; LF])
                   false false false [])
  = StillRunning.
Proof.
  apply (yenc_Close_without_header
           (mkYenc ([114; 147; CR; LF] ++ Bufio.bytes "=yend size=2" ++ [CR; LF])
                   false false false [])
           [[114; 147; CR]; Bufio.bytes "=yend size=2" ++ [CR]] [] 10);
    try reflexivity.
  - repeat constructor; apply (bool_decide_unpack _); vm_compute; exact I.
  - apply (bool_decide_unpack _). vm_compute. exact I.
Defined.

End YencBody.

Module YencReads.
Import Yenc YencFacts YencDecode YencReader YencLines YencBody.

Lemma Reads_mono (n : nat) (fuel : nat) :
  ∀ (y : yencReader) res (fuel' : nat),
    Reads fuel n y = Returns res → (fuel ≤ fuel')%nat → Reads fuel' n y = Returns res.
Proof.
  induction fuel as [|fuel IH]; intros y res fuel' Hres Hle.
  - destruct fuel' as [|fuel']; [done|]. simpl in *.
    destruct (Read y n) as [[[y' data] [e|]]|]; done.
  - destruct fuel' as [|fuel']; [lia|]. simpl in *.
    destruct (Read y n) as [[[y' data] [e|]]|]; try done.
    destruct (Reads fuel n y') as [[[y'' more] e]| |] eqn:E; try done.
    by rewrite (IH _ _ fuel' E) by lia.
Qed.

Lemma reads_to_step (n : nat) (y y' y'' : yencReader) (data more : list Z) (e : error) :
  Read y n = Some (y', data, None) →
  reads_to n y' (y'', more, e) →
  reads_to n y (y'', data ++ more, e).
Proof.
  intros Hread [fuel Hfuel]. exists (S fuel). simpl. by rewrite Hread, Hfuel.
Qed.

(** Bytes left in [buf] are handed out first, [n] at a time, without
    reading the stream. *)
Lemma reads_to_buf (n : nat) (rr : list Z) (h sp ef : bool) (y'' : yencReader)
    (more : list Z) (e : error) :
  (0 < n)%nat →
  reads_to n (mkYenc rr h sp ef []) (y'', more, e) →
  ∀ b, reads_to n (mkYenc rr h sp ef b) (y'', b ++ more, e).
Proof.
  intros Hn Hrest b.
  remember (length b) as len eqn:Hlen. revert b Hlen.
  induction len as [len IH] using lt_wf_ind. intros b ->.
  destruct b as [|c b]; [done|].
  replace ((c :: b) ++ more) with (take n (c :: b) ++ drop n (c :: b) ++ more)
    by (by rewrite app_assoc, take_drop).
  apply (reads_to_step n _ (mkYenc rr h sp ef (drop n (c :: b)))).
  - unfold Read. cbn [buf]. by rewrite bool_decide_eq_false_2 by done.
  - apply (IH (length (drop n (c :: b)))); [|done].
    rewrite length_drop. simpl. lia.
Qed.

(** A data line, read through [Read]. *)
Lemma reads_to_data_line (n : nat) (raw rest : list Z) (sp : bool) (y'' : yencReader)
    (more : list Z) (e : error) :
  (0 < n)%nat →
  data_raw raw →
  reads_to n (mkYenc rest true (snd (decode_spec sp (chomp raw))) false []) (y'', more, e) →
  reads_to n (mkYenc (raw ++ LF :: rest) true sp false [])
    (y'', fst (decode_spec sp (chomp raw)) ++ more, e).
Proof.
  intros Hn [Hlf Hend] Hrest.
  set (out := fst (decode_spec sp (chomp raw))).
  replace (out ++ more) with (take n out ++ drop n out ++ more)
    by (by rewrite app_assoc, take_drop).
  apply (reads_to_step n _ (mkYenc rest true (snd (decode_spec sp (chomp raw))) false
                             (drop n out))).
  - unfold Read. cbn [buf]. rewrite bool_decide_eq_true_2 by done.
    rewrite (nextLine_data _ raw rest) by done. cbn [awaitingSpecial].
    fold (chomp raw). subst out. by destruct (decode_spec sp (chomp raw)).
  - by apply reads_to_buf.
Qed.

Lemma reads_to_lines (n : nat) (raws : list (list Z)) :
  ∀ (tail : list Z) (sp : bool) (y'' : yencReader) (more : list Z) (e : error),
    (0 < n)%nat →
    Forall data_raw raws →
    reads_to n (mkYenc tail true (snd (decode_spec sp (concat (chomp <$> raws)))) false [])
      (y'', more, e) →
    reads_to n (mkYenc (wire raws ++ tail) true sp false [])
      (y'', fst (decode_spec sp (concat (chomp <$> raws))) ++ more, e).
Proof.
  induction raws as [|raw raws IH]; intros tail sp y'' more e Hn Hraws Hrest; [done|].
  apply Forall_cons in Hraws as [Hraw Hraws].
  rewrite wire_cons. cbn [fmap list_fmap concat] in *.
  rewrite decode_spec_app in *.
  destruct (decode_spec sp (chomp raw)) as [o1 p1] eqn:E1.
  destruct (decode_spec p1 (concat (chomp <$> raws))) as [o2 p2] eqn:E2.
  cbn [fst snd] in *. rewrite <- app_assoc.
  replace o1 with (fst (decode_spec sp (chomp raw))) by by rewrite E1.
  apply reads_to_data_line; [done | done |].
  rewrite E1. cbn [snd].
  replace o2 with (fst (decode_spec p1 (concat (chomp <$> raws)))) by by rewrite E2.
  apply IH; [done | done |]. by rewrite E2.
Qed.

(** The whole body, from the header line to the trailer line. *)
Lemma reads_to_body (n : nat) (y : yencReader) (hraw : list Z) (raws : list (list Z))
    (yendraw more : list Z) :
  (0 < n)%nat →
  readHeader y = false → eof y = false → buf y = [] →
  r y = hraw ++ LF :: wire raws ++ yendraw ++ LF :: more →
  LF ∉ hraw →
  Bufio.HasPrefix (chomp hraw) ybegin = true →
  Forall data_raw raws →
  LF ∉ yendraw →
  Bufio.HasPrefix (chomp yendraw) yend = true →
  reads_to n y
    (mkYenc more true (snd (decode_spec (awaitingSpecial y) (concat (chomp <$> raws)))) true [],
     fst (decode_spec (awaitingSpecial y) (concat (chomp <$> raws))),
     EOF).
Proof.
  intros Hn Hh He Hb Hr Hlfh Hbegin Hraws Hlf Hend.
  set (sp := awaitingSpecial y).
  set (res := decode_spec sp (concat (chomp <$> raws))).
  change (fst res) with ([] ++ fst res).
  apply (reads_to_step n _ (mkYenc (wire raws ++ yendraw ++ LF :: more) true sp false [])).
  { unfold Read. rewrite Hb. cbn [length]. rewrite bool_decide_eq_true_2 by done.
    rewrite (nextLine_header y hraw (wire raws ++ yendraw ++ LF :: more)) by done.
    rewrite Hbegin, Hb. cbn [mbind option_bind r readHeader awaitingSpecial eof buf].
    by rewrite take_nil, drop_nil. }
  rewrite <- (app_nil_r (fst res)).
  apply reads_to_lines; [done | done |].
  exists 0%nat. simpl. unfold Read. cbn [buf length].
  rewrite bool_decide_eq_true_2 by done.
  by rewrite (nextLine_yend _ yendraw more).
Qed.

(** X10. Reading a complete body to its end.  On a reader that has read
    nothing yet, over a stream that holds a header line, data lines, a
    trailer line and then [more]: calling [Read] with a buffer of any
    size [n > 0] until it returns an error gives, in order, exactly the
    bytes of the decoding of the data lines, and then [io.EOF]; the
    stream is left at [more] and [buf] is empty.  Any number of calls
    beyond some bound gives that result. *)
Theorem yenc_Reads_complete_body (n : nat) (y : yencReader) (hraw : list Z)
    (raws : list (list Z)) (yendraw more : list Z) :
  (0 < n)%nat →
  readHeader y = false → eof y = false → buf y = [] →
  r y = hraw ++ LF :: wire raws ++ yendraw ++ LF :: more →
  LF ∉ hraw →
  Bufio.HasPrefix (chomp hraw) ybegin = true →
  Forall data_raw raws →
  LF ∉ yendraw →
  Bufio.HasPrefix (chomp yendraw) yend = true →
  ∃ out special,
    decode_lines (awaitingSpecial y) (chomp <$> raws) = Some (out, special)
    ∧ ∃ fuel0, ∀ fuel, (fuel0 ≤ fuel)%nat →
        Reads fuel n y = Returns (mkYenc more true special true [], out, EOF).
Proof.
  intros Hn Hh He Hb Hr Hlfh Hbegin Hraws Hlf Hend.
  destruct (reads_to_body n y hraw raws yendraw more) as [fuel0 Hfuel0]; try done.
  rewrite decode_lines_concat, decode_eq_spec.
  destruct (decode_spec _ _) as [out special]. exists out, special. split; [done|].
  exists fuel0. intros fuel Hle. by apply (Reads_mono n fuel0).
Qed.

Lemma yenc_Reads_complete_body_witness :
  ∃ out special,
    decode_lines false [[114; 147]] = Some (out, special)
    ∧ ∃ fuel0, ∀ fuel, (fuel0 ≤ fuel)%nat →
        Reads fuel 1 complete_body = Returns (mkYenc [] true special true [], out, EOF).
Proof.
  apply (yenc_Reads_complete_body 1 complete_body
           (Bufio.bytes "=ybegin line=128 size=2 name=hi.txt" ++ [CR])
           [[114; 147; CR]] (Bufio.bytes "=yend size=2" ++ [CR]) []);
    try reflexivity.
  - lia.
  - apply (bool_decide_unpack _). vm_compute. exact I.
  - repeat constructor. apply (bool_decide_unpack _). vm_compute. exact I.
  - apply (bool_decide_unpack _). vm_compute. exact I.
Defined.

End YencReads.

Module YencRoundTrip.
Import Yenc YencFacts YencDecode YencReader YencLines YencBody YencReads.

Lemma plain_cons (c : Z) (s : list Z) :
  plain (c :: s) = true → c ≠ CR ∧ c ≠ LF ∧ plain s = true.
Proof.
  cbn [plain]. rewrite !andb_true_iff, !negb_true_iff.
  intros [[[Hcr Hlf] _] Hs]. apply Z.eqb_neq in Hcr, Hlf. done.
Qed.

Lemma plain_app_r (pre s : list Z) : plain (pre ++ s) = true → plain s = true.
Proof.
  induction pre as [|c pre IH]; [done|]. intros H. apply plain_cons in H. tauto.
Qed.

Lemma plain_app_l (s post : list Z) : plain (s ++ post) = true → Forall (λ c, c ≠ CR ∧ c ≠ LF) s.
Proof.
  induction s as [|c s IH]; [by constructor|]. intros H. apply plain_cons in H.
  constructor; tauto.
Qed.

Lemma plain_no_yend (s post : list Z) :
  plain (s ++ post) = true → Bufio.HasPrefix s yend = false.
Proof.
  intros H. unfold Bufio.HasPrefix. apply andb_false_iff. right.
  apply bool_decide_eq_false_2. intros Htake.
  destruct s as [|a [|b s]]; try done.
  unfold yend in Htake. simpl in Htake. injection Htake as -> -> _.
  cbn [plain app] in H. rewrite !andb_true_iff in H.
  by destruct H as [[_ H] _].
Qed.

Lemma TrimRight_id (s cutset : list Z) :
  Forall (λ c, c ∉ cutset) s → Bufio.TrimRight s cutset = s.
Proof.
  induction 1 as [|c s Hc _ IH]; [done|]. simpl. rewrite IH.
  destruct s; [|done]. by rewrite bool_decide_eq_false_2.
Qed.

Lemma plain_encode (b : list Z) : plain (encode critical_yenc b) = true.
Proof.
  induction b as [|x b IH]; [done|]. cbn [encode].
  set (o := Uint8.add x 42).
  destruct (critical_yenc o) eqn:Hc.
  - assert (Ho : o = 0 ∨ o = 10 ∨ o = 13 ∨ o = 61).
    { unfold critical_yenc in Hc. apply bool_decide_eq_true_1 in Hc.
      unfold LF, CR, ESC in Hc. rewrite !elem_of_cons, elem_of_nil in Hc. tauto. }
    assert (He : Uint8.add o 64 = 64 ∨ Uint8.add o 64 = 74
                 ∨ Uint8.add o 64 = 77 ∨ Uint8.add o 64 = 125).
    { destruct Ho as [-> | [-> | [-> | ->]]]; vm_compute; tauto. }
    set (e := Uint8.add o 64) in *.
    cbn [plain]. rewrite IH.
    assert (Hd : match encode critical_yenc b with
                 | d :: _ => negb ((e =? ESC) && (d =? 121))
                 | [] => true
                 end = true).
    { destruct (encode critical_yenc b); [done|].
      destruct He as [-> | [-> | [-> | ->]]]; done. }
    rewrite Hd. destruct He as [-> | [-> | [-> | ->]]]; done.
  - assert (Ho : o ≠ 10 ∧ o ≠ 13 ∧ o ≠ 61).
    { unfold critical_yenc in Hc. apply bool_decide_eq_false_1 in Hc.
      unfold LF, CR, ESC in Hc. rewrite !elem_of_cons, elem_of_nil in Hc. lia. }
    destruct Ho as (H10 & H13 & H61).
    cbn [plain]. rewrite IH. unfold CR, LF, ESC.
    apply Z.eqb_neq in H10, H13, H61. rewrite H10, H13, H61. simpl.
    by destruct (encode critical_yenc b).
Qed.

(** The lines cut out of an encoding, each sent with CR LF, are data
    lines, and chomping gives the lines back. *)
Lemma encoded_lines (lines : list (list Z)) (post : list Z) :
  plain (concat lines ++ post) = true →
  Forall data_raw ((λ l, l ++ [CR]) <$> lines)
  ∧ chomp <$> ((λ l, l ++ [CR]) <$> lines) = lines.
Proof.
  induction lines as [|l lines IH]; intros Hplain; [by split; [constructor|]|].
  cbn [concat] in Hplain. rewrite <- app_assoc in Hplain.
  pose proof (plain_app_l _ _ Hplain) as Hl.
  pose proof (plain_no_yend _ _ Hplain) as Hy.
  apply plain_app_r in Hplain. destruct (IH Hplain) as [IH1 IH2].
  assert (Hchomp : chomp (l ++ [CR]) = l).
  { unfold chomp. rewrite TrimRight_snoc_cut by byte_mem.
    apply TrimRight_id. eapply Forall_impl; [exact Hl|].
    intros c [? ?]. byte_mem. }
  cbn [fmap list_fmap]. split.
  - constructor; [|done]. split; [|by rewrite Hchomp].
    rewrite elem_of_app, list_elem_of_singleton. intros [Hin | Heq]; [|done].
    rewrite Forall_forall in Hl. by destruct (Hl _ Hin).
  - by rewrite Hchomp, IH2.
Qed.

(** X11. End to end.  Take any sequence [b] of bytes, encode it with the
    critical set of the yEnc format (NUL, LF, CR, ['=']), cut the
    encoding into lines anywhere, and send a [=ybegin] line, the lines
    (each ended by CR LF) and a [=yend] line.  A reader that has read
    nothing yet, read with a buffer of any size [n > 0] until [Read]
    returns an error, gives exactly [b] and then [io.EOF], and leaves
    the stream right after the [=yend] line. *)
Theorem yenc_Reads_encoded_body (n : nat) (b : list Z) (lines : list (list Z))
    (hraw yendraw more : list Z) :
  (0 < n)%nat →
  Forall Uint8.is_byte b →
  concat lines = encode critical_yenc b →
  LF ∉ hraw →
  Bufio.HasPrefix (chomp hraw) ybegin = true →
  LF ∉ yendraw →
  Bufio.HasPrefix (chomp yendraw) yend = true →
  ∃ fuel0, ∀ fuel, (fuel0 ≤ fuel)%nat →
    Reads fuel n
      (mkYenc (hraw ++ LF :: wire ((λ l, l ++ [CR]) <$> lines) ++ yendraw ++ LF :: more)
         false false false [])
    = Returns (mkYenc more true false true [], b, EOF).
Proof.
  intros Hn Hb Hlines Hlfh Hbegin Hlf Hend.
  destruct (encoded_lines lines []) as [Hraws Hchomp].
  { rewrite app_nil_r, Hlines. apply plain_encode. }
  destruct (reads_to_body n
              (mkYenc (hraw ++ LF :: wire ((λ l, l ++ [CR]) <$> lines)
                       ++ yendraw ++ LF :: more) false false false [])
              hraw ((λ l, l ++ [CR]) <$> lines) yendraw more) as [fuel0 Hfuel0];
    try done.
  cbn [awaitingSpecial] in Hfuel0.
  rewrite Hchomp, Hlines, decode_spec_encode in Hfuel0 by done.
  exists fuel0. intros fuel Hle. by apply (Reads_mono n fuel0).
Qed.

(** The bytes 19, ['H'], ['i'], with the line break after the escape
    marker of 19, read one byte at a time. *)
Lemma yenc_Reads_encoded_body_witness :
  ∃ fuel0, ∀ fuel, (fuel0 ≤ fuel)%nat →
    Reads fuel 1
      (mkYenc ((Bufio.bytes "=ybegin line=128 size=3 name=x" ++ [CR])
               ++ LF :: wire ((λ l, l ++ [CR]) <$> [[61]; [125; 114; 147]])
               ++ (Bufio.bytes "=yend size=3" ++ [CR]) ++ LF :: [])
         false false false [])
    = Returns (mkYenc [] true false true [], [19; 72; 105], EOF).
Proof.
  apply (yenc_Reads_encoded_body 1 [19; 72; 105] [[61]; [125; 114; 147]]
           (Bufio.bytes "=ybegin line=128 size=3 name=x" ++ [CR])
           (Bufio.bytes "=yend size=3" ++ [CR]) []); try reflexivity.
  - lia.
  - repeat constructor; unfold Uint8.is_byte; lia.
  - apply (bool_decide_unpack _). vm_compute. exact I.
  - apply (bool_decide_unpack _). vm_compute. exact I.
Defined.

End YencRoundTrip.

(** * Further properties of the compressed body reader *)

Module ZlibDotLines.
Import Strings ZlibDot StringFacts ZlibDotFacts.

Lemma ReadString_eof (delim : ascii) (s : string) :
  ContainsRune s delim = false →
  ReadString delim s = (s, EmptyString, Some EOF).
Proof.
  induction s as [|c s IH]; cbn [ContainsRune ReadString]; intros Hs; [done|].
  apply orb_false_elim in Hs as [Hc Hs].
  rewrite Ascii.eqb_sym, Hc. by rewrite IH.
Qed.

Lemma ReadString_split (delim : ascii) (input : string) :
  ∃ data rest err,
    ReadString delim input = (data, rest, err)
    ∧ input = data +:+ rest
    ∧ ((err = None ∧ ∃ l, data = l +:+ String delim EmptyString
                          ∧ ContainsRune l delim = false)
       ∨ (err = Some EOF ∧ rest = EmptyString ∧ ContainsRune data delim = false)).
Proof.
  induction input as [|c input (data & rest & err & IH & Hsplit & Hcases)];
    cbn [ReadString].
  - eexists _, _, _. split; [done|]. split; [done|]. by right.
  - destruct (Ascii.eqb c delim) eqn:Hc.
    + apply Ascii.eqb_eq in Hc as ->.
      eexists _, _, _. split; [done|]. split; [done|]. left. split; [done|].
      by exists EmptyString.
    + rewrite IH. eexists _, _, _. split; [done|].
      split; [by rewrite append_cons, <- Hsplit|].
      destruct Hcases as [[-> (l & -> & Hl)] | (-> & -> & Hd)].
      * left. split; [done|]. exists (String c l). split; [done|].
        cbn [ContainsRune]. by rewrite Ascii.eqb_sym, Hc, Hl.
      * right. repeat split; try done.
        cbn [ContainsRune]. by rewrite Ascii.eqb_sym, Hc, Hd.
Qed.

Lemma TrimRight_app_LF (s : string) :
  TrimRight (s +:+ String LF EmptyString) CRLF = TrimRight s CRLF.
Proof.
  induction s as [|c s IH]; [done|].
  rewrite append_cons. cbn [TrimRight]. by rewrite IH.
Qed.

Lemma TrimRight_only_CR (pad : string) :
  only CR pad = true → TrimRight pad CRLF = EmptyString.
Proof.
  induction pad as [|c pad IH]; [done|]. cbn [only TrimRight].
  intros [Hc Hpad]%andb_true_iff. rewrite (IH Hpad).
  apply Ascii.eqb_eq in Hc as ->. done.
Qed.

Lemma TrimRight_empty_only_CR (s : string) :
  ContainsRune s LF = false →
  TrimRight s CRLF = EmptyString → only CR s = true.
Proof.
  induction s as [|c s IH]; [done|]. cbn [ContainsRune TrimRight only].
  intros [Hc Hs]%orb_false_elim Htrim.
  destruct (TrimRight s CRLF) eqn:E; [|done].
  rewrite (IH Hs eq_refl), andb_true_r.
  destruct (ContainsRune CRLF c) eqn:Hcut; [|done].
  unfold CRLF in Hcut. cbn [ContainsRune] in Hcut.
  rewrite orb_false_r in Hcut. apply orb_true_iff in Hcut as [H|H]; [done|].
  rewrite Ascii.eqb_sym in H. congruence.
Qed.

Lemma terminator_line (line : string) :
  ContainsRune line LF = false →
  String.eqb (TrimRight (line +:+ String LF EmptyString) CRLF) "." = true
  ↔ ∃ pad, line = "." +:+ pad ∧ only CR pad = true.
Proof.
  intros Hline. rewrite TrimRight_app_LF, String.eqb_eq. split.
  - destruct line as [|c line]; [done|].
    cbn [TrimRight ContainsRune] in *. apply orb_false_elim in Hline as [_ Hline].
    destruct (TrimRight line CRLF) eqn:E.
    + destruct (ContainsRune CRLF c); [done|]. intros [= ->].
      exists line. split; [done|]. by apply TrimRight_empty_only_CR.
    + done.
  - intros (pad & -> & Hpad). rewrite append_cons, append_nil_l.
    cbn [TrimRight]. by rewrite (TrimRight_only_CR pad Hpad).
Qed.

Section Reader.
Context {zstate : Type}.
Variable zClose : zstate → string → zstate * string * option error.
Variable fmt_plus_q : string → string.

Local Abbreviation Close := (Close zClose fmt_plus_q).

(** X12. When the clear stream ends before any line feed, the first
    [Close] takes all that is left of it, returns the [io.EOF] of the
    read, not a [ProtocolError], and still records the terminator as
    read. *)
Theorem zlib_Close_at_end_of_stream
    (zr : zlibDotResponse zstate) (z' : zstate) (zerr : option error) (left : string) :
  dotWasRead zr = false →
  zClose (z zr) (clear zr) = (z', left, zerr) →
  ContainsRune left LF = false →
  Close zr = (mkZlibDot EmptyString z' true, Some EOF).
Proof.
  intros Hdot Hz Hleft. unfold ZlibDot.Close, ZlibDot.readDot.
  rewrite Hz. cbn [dotWasRead clear z]. by rewrite Hdot, ReadString_eof.
Qed.

(** C6 (as the code has it). With the terminator not read yet and the
    clear stream, after the filter is finalized, holding a line (up to
    its first line feed) followed by [rest]: [Close] takes exactly that
    line off the clear stream; it returns nil exactly when the line is
    ["."] followed by any number of CR, none included, before the line
    feed; for every other line it returns a [ProtocolError] whose
    message ends with the line as [%+q] prints it. *)
Theorem zlib_Close_terminator
    (zr : zlibDotResponse zstate) (z' : zstate) (zerr : option error)
    (line rest : string) :
  dotWasRead zr = false →
  zClose (z zr) (clear zr) = (z', line +:+ String LF rest, zerr) →
  ContainsRune line LF = false →
  fst (Close zr) = mkZlibDot rest z' true
  ∧ (snd (Close zr) = None ↔ ∃ pad, line = "." +:+ pad ∧ only CR pad = true)
  ∧ (snd (Close zr) = None
     ∨ snd (Close zr)
       = Some (ProtocolError
                 (expected_dot +:+ fmt_plus_q (line +:+ String LF EmptyString)))).
Proof.
  intros Hdot Hz Hline.
  rewrite (zlib_Close_checks_terminator_eq zClose fmt_plus_q zr z' zerr line rest)
    by done.
  cbn [fst snd]. split; [done|].
  rewrite <- (terminator_line line Hline).
  destruct (String.eqb _ _); split; try done; [by left | by right].
Qed.

(** X13. Which lines the first [Close] accepts as the terminator: with
    a line (up to its first line feed) at the head of the clear stream,
    [Close] returns nil exactly when the line is ["."] followed by any
    number of CR, none included. *)
Theorem zlib_Close_accepts
    (zr : zlibDotResponse zstate) (z' : zstate) (zerr : option error)
    (line rest : string) :
  dotWasRead zr = false →
  zClose (z zr) (clear zr) = (z', line +:+ String LF rest, zerr) →
  ContainsRune line LF = false →
  snd (Close zr) = None ↔ ∃ pad, line = "." +:+ pad ∧ only CR pad = true.
Proof.
  intros Hdot Hz Hline.
  rewrite (zlib_Close_checks_terminator_eq zClose fmt_plus_q zr z' zerr line rest)
    by done.
  rewrite <- (terminator_line line Hline). cbn [snd].
  by destruct (String.eqb _ _).
Qed.

(** The filter's [Close] does not read from the stream it wraps. *)
Hypothesis zClose_reads_nothing :
  ∀ (s : zstate) (c : string), snd (fst (zClose s c)) = c.

(** X14. [Close] never reads past the first line feed of the clear
    stream: what it takes off the stream is nothing, or the whole rest of
    a stream that has no line feed, or one line up to and including its
    line feed. *)
Theorem zlib_Close_reads_one_line (zr : zlibDotResponse zstate) :
  ∃ taken,
    clear zr = taken +:+ clear (fst (Close zr))
    ∧ (taken = EmptyString
       ∨ (ContainsRune taken LF = false ∧ clear (fst (Close zr)) = EmptyString)
       ∨ ∃ l, taken = l +:+ String LF EmptyString ∧ ContainsRune l LF = false).
Proof.
  unfold ZlibDot.Close, ZlibDot.readDot.
  pose proof (zClose_reads_nothing (z zr) (clear zr)) as Hc.
  destruct (zClose (z zr) (clear zr)) as [[z' clear'] e]. simpl in Hc. subst clear'.
  cbn [dotWasRead clear z]. destruct (dotWasRead zr).
  { exists EmptyString. split; [done | by left]. }
  destruct (ReadString_split LF (clear zr)) as (data & rest & err & -> & Hsplit & Hcases).
  exists data.
  assert (Hclear : ∀ b : zlibDotResponse zstate * option error,
            clear (fst b) = rest →
            clear zr = data +:+ clear (fst b)
            ∧ (data = EmptyString
               ∨ (ContainsRune data LF = false ∧ clear (fst b) = EmptyString)
               ∨ ∃ l, data = l +:+ String LF EmptyString ∧ ContainsRune l LF = false)).
  { intros b ->. split; [done|].
    destruct Hcases as [[_ (l & -> & Hl)] | (_ & -> & Hd)].
    - right; right. by exists l.
    - right; left. done. }
  destruct err as [e'|]; [by apply Hclear|].
  destruct (negb _); by apply Hclear.
Qed.

End Reader.

(** C6 (as stated) fails: the line is ["."], CR, CR, LF; without its
    two-byte line ending it is ["."] followed by CR, which is not
    ["."]; and [Close] returns nil. *)
Lemma zlib_Close_accepts_doubled_CR :
  Multiline.readLine ("." +:+ String CR CRLF +:+ "205 Bye!" +:+ CRLF)
    = Some ("." +:+ String CR EmptyString, "205 Bye!" +:+ CRLF)
  ∧ "." +:+ String CR EmptyString ≠ "."%string
  ∧ Close zlibClose quote
      (mkZlibDot ("." +:+ String CR CRLF +:+ "205 Bye!" +:+ CRLF) None false)
    = (mkZlibDot ("205 Bye!" +:+ CRLF) None true, None).
Proof. split; [reflexivity|]. split; [discriminate | reflexivity]. Qed.

Lemma zlib_Close_terminator_witness :
  fst (Close zlibClose quote (mkZlibDot ("." +:+ CRLF +:+ "205 Bye!" +:+ CRLF) None false))
  = mkZlibDot ("205 Bye!" +:+ CRLF) None true
  ∧ (snd (Close zlibClose quote
            (mkZlibDot ("." +:+ CRLF +:+ "205 Bye!" +:+ CRLF) None false)) = None
     ↔ ∃ pad, "." +:+ String CR EmptyString = "." +:+ pad ∧ only CR pad = true)
  ∧ (snd (Close zlibClose quote
            (mkZlibDot ("." +:+ CRLF +:+ "205 Bye!" +:+ CRLF) None false)) = None
     ∨ snd (Close zlibClose quote
              (mkZlibDot ("." +:+ CRLF +:+ "205 Bye!" +:+ CRLF) None false))
       = Some (ProtocolError
                 (expected_dot
                  +:+ quote (("." +:+ String CR EmptyString) +:+ String LF EmptyString)))).
Proof.
  apply (zlib_Close_terminator zlibClose quote
           (mkZlibDot ("." +:+ CRLF +:+ "205 Bye!" +:+ CRLF) None false)
           None None ("." +:+ String CR EmptyString) ("205 Bye!" +:+ CRLF));
    reflexivity.
Defined.

Lemma zlib_Close_at_end_of_stream_witness :
  Close zlibClose quote (mkZlibDot "." None false)
  = (mkZlibDot EmptyString None true, Some EOF).
Proof.
  apply (zlib_Close_at_end_of_stream zlibClose quote (mkZlibDot "." None false)
           None None "."); reflexivity.
Defined.

Lemma zlib_Close_accepts_witness :
  snd (Close zlibClose quote
         (mkZlibDot ("." +:+ String CR (String CR (String LF "224 next"))) None false))
  = None.
Proof.
  apply (zlib_Close_accepts zlibClose quote
           (mkZlibDot ("." +:+ String CR (String CR (String LF "224 next"))) None false)
           None None ("." +:+ String CR (String CR EmptyString)) "224 next");
    try reflexivity.
  exists (String CR (String CR EmptyString)). split; reflexivity.
Defined.

Lemma zlib_Close_reads_one_line_witness :
  ∃ taken,
    clear corrupt_response
    = taken +:+ clear (fst (Close zlibClose quote corrupt_response))
    ∧ (taken = EmptyString
       ∨ (ContainsRune taken LF = false
          ∧ clear (fst (Close zlibClose quote corrupt_response)) = EmptyString)
       ∨ ∃ l, taken = l +:+ String LF EmptyString ∧ ContainsRune l LF = false).
Proof.
  apply (zlib_Close_reads_one_line zlibClose quote (λ s c, eq_refl) corrupt_response).
Defined.

End ZlibDotLines.
